(** * dicomweb-proxy: retrieval orchestration and cache layer

    A shallow embedding of [src/utils.js] (the single-flight retrieve
    coordinator [fetchData] / [waitOrFetchData], the cache sweep
    [clearCache] and the query translator [doFind]) and of the metadata
    route of the web server, together with the properties of the design
    document that can be settled on them.

    Conventions of the embedding.
    - JavaScript values are the values of [json] plus [undefined], which is
      [None] of [option json]; numbers are integers ([Z]).
    - A string is the UTF-8 encoding of the JavaScript string; its
      [length] counts UTF-16 code units ([utf16_length]).
    - A JavaScript exception is the [Throw] branch of [completion].
    - Library functions that the source calls but does not define
      ([JSON.parse], the data dictionary) are parameters of the sections.
    - A promise is a cell of the world; [resolve] and [reject] settle a
      pending cell and do nothing on a settled one.
    - Node runs every callback to completion, so each function of the
      source that does not [await] is one transition of the world. *)

From stdpp Require Import base option list gmap strings.
From Stdlib Require Import ZArith Lia Ascii.

Local Open Scope string_scope.
Local Open Scope list_scope.
Local Open Scope Z_scope.

(** ** JavaScript values *)

Module Js.

#[local] Set Warnings "-register-all".

Inductive json : Type :=
  | JNull
  | JBool (b : bool)
  | JNum (n : Z)
  | JStr (s : string)
  | JArr (items : list json)
  | JObj (fields : list (string * json)).

Inductive error : Type :=
  | SyntaxError     (* JSON.parse on a malformed text *)
  | TypeError       (* property of null/undefined, call of a non-function,
                       non-string argument of path.join *)
  | LibraryError.   (* thrown by the archive engine or the DICOM parser *)

Inductive completion (A : Type) : Type :=
  | Normal (a : A)
  | Throw (e : error).
Arguments Normal {A} a.
Arguments Throw {A} e.

(** Sequencing of statements that may throw, with stdpp's [x ← c; k]. *)
#[global] Instance completion_ret : MRet completion := @Normal.
#[global] Instance completion_bind : MBind completion := λ A B k c,
  match c with
  | Normal a => k a
  | Throw e => Throw e
  end.

(** ToBoolean. *)
Definition truthy (v : option json) : bool :=
  match v with
  | None | Some JNull => false
  | Some (JBool b) => b
  | Some (JNum n) => negb (n =? 0)
  | Some (JStr s) => negb (String.eqb s EmptyString)
  | Some (JArr _) | Some (JObj _) => true
  end.

Fixpoint assoc {A} (k : string) (l : list (string * A)) : option A :=
  match l with
  | [] => None
  | (k', v) :: l' => if String.eqb k k' then Some v else assoc k l'
  end.

(** [o.k] for a property name [k] that is not an array index and not a
    built-in: reading a property of [null] or [undefined] throws, a missing
    property is [undefined]. *)
Definition prop (o : option json) (k : string) : completion (option json) :=
  match o with
  | None | Some JNull => Throw TypeError
  | Some (JObj fields) => Normal (assoc k fields)
  | Some _ => Normal None
  end.

(** [v === n] for a number literal [n]. *)
Definition is_num (v : option json) (n : Z) : bool :=
  match v with
  | Some (JNum m) => m =? n
  | _ => false
  end.

(** [o[k] = v] on an object: the property is overwritten in place when it
    exists and appended otherwise. *)
Fixpoint set_field (k : string) (v : json) (fields : list (string * json))
  : list (string * json) :=
  match fields with
  | [] => [(k, v)]
  | (k', v') :: rest =>
      if String.eqb k k' then (k', v) :: rest else (k', v') :: set_field k v rest
  end.

(** [Array.prototype.slice(start)] and [String.prototype.slice(start)]: the
    relative start is [0] for [NaN] ([None]), counted from the end when
    negative, and clamped to the length. *)
Definition slice_start (start : option Z) (len : nat) : nat :=
  match start with
  | None => 0%nat
  | Some k =>
      if k <? 0 then Z.to_nat (Z.max (Z.of_nat len + k) 0)
      else Z.to_nat (Z.min k (Z.of_nat len))
  end.

Definition slice {A} (start : option Z) (l : list A) : list A :=
  drop (slice_start start (length l)) l.

(** On a string the positions are those of its bytes, which are the code
    units of a string of ASCII characters. *)
Definition string_slice (start : option Z) (s : string) : string :=
  String.string_of_list_ascii (slice start (String.list_ascii_of_string s)).

(** [s.length]: a string of the model is the UTF-8 encoding of the
    JavaScript string, whose length counts UTF-16 code units: one for each
    character of one to three bytes, two for a character of four bytes, none
    for a continuation byte. *)
Definition utf16_units (c : ascii) : nat :=
  let n := nat_of_ascii c in
  if (n <? 128)%nat then 1%nat
  else if (n <? 192)%nat then 0%nat
  else if (n <? 240)%nat then 1%nat
  else 2%nat.

Fixpoint utf16_length (s : string) : nat :=
  match s with
  | EmptyString => 0%nat
  | String c rest => (utf16_units c + utf16_length rest)%nat
  end.

(** [path.join] of the POSIX flavour: the non-empty arguments are joined
    with [/] and the result is normalised, which drops empty and [.]
    segments and resolves [..] against the segment before it. *)
Fixpoint split_slash (s : string) : list string :=
  match s with
  | EmptyString => [EmptyString]
  | String c rest =>
      if Ascii.eqb c "/" then EmptyString :: split_slash rest
      else match split_slash rest with
           | h :: t => String c h :: t
           | [] => [String c EmptyString]
           end
  end.

Fixpoint join_slash (segments : list string) : string :=
  match segments with
  | [] => EmptyString
  | [s] => s
  | s :: rest => s +:+ "/" +:+ join_slash rest
  end.

(** One segment of [normalizeString]; [stack] holds the segments kept so
    far, last first. *)
Definition normalize_step (allowAboveRoot : bool) (stack : list string)
    (segment : string) : list string :=
  if String.eqb segment EmptyString || String.eqb segment "." then stack
  else if String.eqb segment ".." then
    match stack with
    | top :: below =>
        if String.eqb top ".."
        then (if allowAboveRoot then segment :: stack else stack)
        else below
    | [] => if allowAboveRoot then [segment] else []
    end
  else segment :: stack.

Definition starts_with_slash (s : string) : bool :=
  match s with
  | String c _ => Ascii.eqb c "/"
  | EmptyString => false
  end.

Fixpoint ends_with_slash (s : string) : bool :=
  match s with
  | EmptyString => false
  | String c EmptyString => Ascii.eqb c "/"
  | String _ rest => ends_with_slash rest
  end.

Definition normalize (path : string) : string :=
  if String.eqb path EmptyString then "."
  else
    let isAbsolute := starts_with_slash path in
    let trailingSeparator := ends_with_slash path in
    let kept := rev (foldl (normalize_step (negb isAbsolute)) [] (split_slash path)) in
    let path := join_slash kept in
    if String.eqb path EmptyString then
      if isAbsolute then "/" else if trailingSeparator then "./" else "."
    else
      let path := if trailingSeparator then path +:+ "/" else path in
      if isAbsolute then "/" +:+ path else path.

Definition path_join (segments : list string) : string :=
  match List.filter (λ s, negb (String.eqb s EmptyString)) segments with
  | [] => "."
  | joined => normalize (join_slash joined)
  end.

(** [path.join] validates that every argument is a string. *)
Fixpoint strings_of (args : list (option json)) : completion (list string) :=
  match args with
  | [] => Normal []
  | Some (JStr s) :: rest => l ← strings_of rest; Normal (s :: l)
  | _ :: _ => Throw TypeError
  end.

Definition path_join_js (args : list (option json)) : completion string :=
  l ← strings_of args; Normal (path_join l).

End Js.

(** ** Promises and configuration *)

Module Promise.
Import Js.

Inductive pstate : Type :=
  | Pending
  | Fulfilled (v : json)
  | Rejected (e : error).

(** [resolve(v)] and [reject(e)] of the promise constructor: only the first
    call on a promise has an effect. *)
Definition resolve (v : json) (p : pstate) : pstate :=
  match p with
  | Pending => Fulfilled v
  | _ => p
  end.

Definition reject (e : error) (p : pstate) : pstate :=
  match p with
  | Pending => Rejected e
  | _ => p
  end.

End Promise.

(** The keys of the configuration file that the modelled code reads. *)
Record config : Type := mkConfig {
  source : string;
  target : string;
  storagePath : string;
  useCget : bool;
  keepCacheInMinutes : Z;
  qidoMinChars : Z;
  qidoAppendWildcard : bool
}.

(** A query or retrieve term [{ key, value }]. *)
Record tag : Type := mkTag { key : string; value : string }.

(** ** Query translator: [findDicomName] and [doFind] *)

Module Find.
Import Js Promise.

(** [parseInt(s)]: leading white space, an optional sign, an optional
    [0x] prefix, then the longest run of digits; [None] is [NaN]. White
    space is TAB to CR and SPACE, and, in their UTF-8 encodings, U+00A0,
    U+1680, U+2000 to U+200A, U+2028, U+2029, U+202F, U+205F, U+3000 and
    U+FEFF. *)
Definition is_white (c : ascii) : bool :=
  let n := nat_of_ascii c in
  (n =? 32)%nat || ((9 <=? n)%nat && (n <=? 13)%nat).

Definition is_white2 (c1 c2 : ascii) : bool :=
  (nat_of_ascii c1 =? 194)%nat && (nat_of_ascii c2 =? 160)%nat.

Definition is_white3 (c1 c2 c3 : ascii) : bool :=
  let n1 := nat_of_ascii c1 in
  let n2 := nat_of_ascii c2 in
  let n3 := nat_of_ascii c3 in
  ((n1 =? 225)%nat && (n2 =? 154)%nat && (n3 =? 128)%nat)
  || ((n1 =? 226)%nat && (n2 =? 128)%nat
      && (((128 <=? n3)%nat && (n3 <=? 138)%nat)
          || (n3 =? 168)%nat || (n3 =? 169)%nat || (n3 =? 175)%nat))
  || ((n1 =? 226)%nat && (n2 =? 129)%nat && (n3 =? 159)%nat)
  || ((n1 =? 227)%nat && (n2 =? 128)%nat && (n3 =? 128)%nat)
  || ((n1 =? 239)%nat && (n2 =? 187)%nat && (n3 =? 191)%nat).

Fixpoint skip_white (s : string) : string :=
  match s with
  | String c1 rest1 =>
      if is_white c1 then skip_white rest1
      else
        match rest1 with
        | String c2 rest2 =>
            if is_white2 c1 c2 then skip_white rest2
            else
              match rest2 with
              | String c3 rest3 =>
                  if is_white3 c1 c2 c3 then skip_white rest3 else s
              | EmptyString => s
              end
        | EmptyString => s
        end
  | EmptyString => s
  end.

Definition digit_val (radix : Z) (c : ascii) : option Z :=
  let n := Z.of_nat (nat_of_ascii c) in
  let d :=
    if (48 <=? n) && (n <=? 57) then n - 48
    else if (97 <=? n) && (n <=? 102) then n - 87
    else if (65 <=? n) && (n <=? 70) then n - 55
    else radix in
  if d <? radix then Some d else None.

Fixpoint digits (radix : Z) (s : string) (acc : option Z) : option Z :=
  match s with
  | EmptyString => acc
  | String c rest =>
      match digit_val radix c with
      | Some d => digits radix rest (Some (default 0 acc * radix + d))
      | None => acc
      end
  end.

Definition parseInt (s : string) : option Z :=
  let s1 := skip_white s in
  let '(negative, s2) :=
    match s1 with
    | String "-" rest => (true, rest)
    | String "+" rest => (false, rest)
    | _ => (false, s1)
    end in
  let '(radix, s3) :=
    match s2 with
    | String "0" (String "x" rest) | String "0" (String "X" rest) => (16, rest)
    | _ => (10, s2)
    end in
  n ← digits radix s3 None;
  Some (if negative : bool then - n else n).

(** [String.prototype.split(",")]. *)
Fixpoint split_comma (s : string) : list string :=
  match s with
  | EmptyString => [EmptyString]
  | String c rest =>
      if Ascii.eqb c "," then EmptyString :: split_comma rest
      else match split_comma rest with
           | h :: t => String c h :: t
           | [] => [String c EmptyString]
           end
  end.

(** The request handed to the archive-query engine. *)
Record find_request : Type := mkFindRequest {
  f_tags : list tag;
  f_source : string;
  f_target : string
}.

(** What a call of [doFind] leaves behind: either the plain array of the
    early [return []], or one call of [findScu] (taken to accept the
    request) and the promise whose callback closes over [offset]. *)
Inductive find_call : Type :=
  | Returned (records : list json)
  | Invoked (request : find_request) (offset : option Z).

Section WithEnvironment.

Variable cfg : config.
(** [dict.standardDataElements] as the list of its [(key, name)] entries
    in key order. *)
Variable standardDataElements : list (string * string).
(** [JSON.parse] of a JavaScript value; [None] when it throws. *)
Variable JSON_parse : option json → option json.

Fixpoint find_name (name : string) (elements : list (string * string))
  : option string :=
  match elements with
  | [] => None
  | (k, n) :: rest => if String.eqb n name then Some k else find_name name rest
  end.

Definition findDicomName (name : string) : option string :=
  find_name name standardDataElements.

(** A query parameter whose name resolves to the patient-name tag. *)
Definition patient_name (propName : string) : Prop :=
  findDicomName propName = Some "00100010".

(** [x || y] on strings and [if (x)] on a string or [undefined]. *)
Definition nonempty (s : option string) : bool :=
  match s with
  | Some s => negb (String.eqb s EmptyString)
  | None => false
  end.

Definition parsed_tag (element : string) : tag :=
  let found := findDicomName element in
  {| key := if nonempty found then default element found else element;
     value := EmptyString |}.

(** The [for (const propName in query)] loop; [None] is the early
    [return []]. *)
Fixpoint search_params (query : list (string * string)) (tags : list tag)
  : option (list tag) :=
  match query with
  | [] => Some tags
  | (propName, v) :: rest =>
      match findDicomName propName with
      | Some t =>
          if nonempty (Some t) then
            if String.eqb t "00100010" then
              if qidoMinChars cfg >? Z.of_nat (utf16_length v) then None
              else
                let v' := if qidoAppendWildcard cfg then v +:+ "*" else v in
                search_params rest (tags ++ [{| key := t; value := v' |}])
            else search_params rest (tags ++ [{| key := t; value := v |}])
          else search_params rest tags
      | None => search_params rest tags
      end
  end.

Definition doFind (queryLevel : string) (query : list (string * string))
    (defaults : list string) : find_call :=
  let j := [{| key := "00080052"; value := queryLevel |}] in
  let includes := assoc "includefield" query in
  let tags := if nonempty includes then split_comma (default EmptyString includes)
              else [] in
  let tags := tags ++ defaults in
  let j := j ++ map parsed_tag tags in
  match search_params query j with
  | None => Returned []
  | Some j =>
      let offset := match assoc "offset" query with
                    | Some o => if nonempty (Some o) then parseInt o else Some 0
                    | None => Some 0
                    end in
      Invoked {| f_tags := j; f_source := source cfg; f_target := target cfg |}
              offset
  end.

Definition parse (v : option json) : completion json :=
  match JSON_parse v with
  | Some j => Normal j
  | None => Throw SyntaxError
  end.

(** [container.slice(offset)]: arrays and strings have the method, on
    any other value the call throws. *)
Definition call_slice (container : json) (offset : option Z) : completion json :=
  match container with
  | JArr items => Normal (JArr (slice offset items))
  | JStr s => Normal (JStr (string_slice offset s))
  | _ => Throw TypeError
  end.

(** The callback passed to [findScu]: [Some v] when it calls
    [resolve(v)], [None] when it returns without settling the promise. *)
Definition find_callback (offset : option Z) (result : string) : option json :=
  let body : completion (option json) :=
    j ← parse (Some (JStr result));
    code ← prop (Some j) "code";
    if is_num code 0 then
      c ← prop (Some j) "container";
      container ← parse c;
      if truthy (Some container) then
        r ← call_slice container offset; Normal (Some r)
      else Normal (Some (JArr []))
    else Normal None in
  match body with
  | Normal r => r
  | Throw _ => Some (JArr [])
  end.

(** The promise returned by [doFind] after the engine has delivered
    [results], oldest first. *)
Definition deliver (offset : option Z) (p : pstate) (result : string) : pstate :=
  match find_callback offset result with
  | Some v => resolve v p
  | None => p
  end.

Definition find_promise (offset : option Z) (results : list string) : pstate :=
  foldl (deliver offset) Pending results.

End WithEnvironment.

End Find.

(** ** Retrieve coordinator: [fetchData] and [waitOrFetchData] *)

Module Retrieve.
Import Js Promise.

(** The request handed to the archive-retrieve engine. *)
Record retrieve_request : Type := mkRetrieveRequest {
  r_tags : list tag;
  r_source : string;
  r_target : string;
  r_storagePath : string
}.

Inductive engine : Type := GetScu | MoveScu.

(** One call [scu(JSON.stringify(j), callback)]: the engine, the request,
    and what the callback closes over. [i_accepted] is [false] when the call
    threw, in which case the engine never invokes the callback. *)
Record invocation : Type := mkInvocation {
  i_engine : engine;
  i_request : retrieve_request;
  i_study : string;
  i_series : string;
  i_first : bool;
  i_promise : nat;
  i_accepted : bool
}.

(** A promise object: one made by [new Promise], with its own state, or the
    promise an [async] function returns, which follows the promise the
    function body returned. *)
Inductive cell : Type :=
  | Own (s : pstate)
  | Adopt (p : nat).

(** The shared state: the module-level [lock] map, the promise objects by
    allocation index, the calls made to the retrieve engine, and the
    persistent store (study identifier to expiry, in milliseconds). *)
Record world : Type := mkWorld {
  lock : gmap string nat;
  promises : list cell;
  invocations : list invocation;
  storage : gmap string Z
}.

Definition init : world :=
  {| lock := ∅; promises := []; invocations := []; storage := ∅ |}.

Definition own_state (w : world) (p : nat) : pstate :=
  match promises w !! p with
  | Some (Own s) => s
  | _ => Pending
  end.

(** What a holder of the promise [h] eventually observes. *)
Definition outcome (w : world) (h : nat) : pstate :=
  match promises w !! h with
  | Some (Own s) => s
  | Some (Adopt p) => own_state w p
  | None => Pending
  end.

Definition settle (f : pstate → pstate) (c : cell) : cell :=
  match c with
  | Own s => Own (f s)
  | Adopt p => Adopt p
  end.

(** Number of engine calls made for a series. *)
Definition retrieves_for (seriesUid : string) (w : world) : nat :=
  length (filter (λ i, i_series i = seriesUid) (invocations w)).

(** A state change that fulfils a promise only with a message object. *)
Definition fulfils_with_object (f : pstate → pstate) : Prop :=
  ∀ s v, f s = Fulfilled v → s = Fulfilled v ∨ ∃ fields, v = JObj fields.

(** Every fulfilled promise of the world holds a message object. *)
Definition fulfilled_objects (w : world) : Prop :=
  ∀ p v, promises w !! p = Some (Own (Fulfilled v)) → ∃ fields, v = JObj fields.

(** No engine call for the series can still invoke its callback. *)
Definition no_live_call (seriesUid : string) (w : world) : Prop :=
  ∀ k i, invocations w !! k = Some i → i_accepted i = true →
         i_series i ≠ seriesUid.

Definition addMinutes (date minutes : Z) : Z := date + minutes * 60000.

(** What one run of the callback decides. *)
Inductive verdict : Type :=
  | ResolveStored (json : Js.json)     (* first branch: resolve(json) *)
  | ResolveDone (json : Js.json)       (* second branch: cache, resolve(json) *)
  | LogOnly.                           (* third branch: logger.info *)

Section WithEnvironment.

Variable cfg : config.
Variable JSON_parse : option json → option json.

Definition parse (v : option json) : completion json :=
  match JSON_parse v with
  | Some j => Normal j
  | None => Throw SyntaxError
  end.

(** The [try] block of the callback. *)
Definition examine (studyUid : string) (waitForFirstImageOnly : bool)
    (result : string) : completion verdict :=
  json ← parse (Some (JStr result));
  code ← prop (Some json) "code";
  let otherwise : completion verdict :=
    if is_num code 0 || is_num code 2 then Normal (ResolveDone json)
    else (_ ← parse (Some (JStr result)); Normal LogOnly) in
  if waitForFirstImageOnly && is_num code 1 then
    container ← prop (Some json) "container";
    sop ← prop container "SOPInstanceUID";
    if truthy sop then
      _ ← path_join_js [Some (JStr (storagePath cfg)); Some (JStr studyUid); sop];
      Normal (ResolveStored json)
    else otherwise
  else otherwise.

(** The continuation of [storage.getItem(studyUid)], run when the clock
    reads [now]. *)
Definition cache_study (now : Z) (studyUid : string) (store : gmap string Z)
  : gmap string Z :=
  match store !! studyUid with
  | Some _ => store
  | None =>
      let cacheTime := keepCacheInMinutes cfg in
      if 0 <=? cacheTime then <[studyUid := addMinutes now cacheTime]> store
      else store
  end.

(** The callback of the [k]-th engine call, invoked with [result]. *)
Definition run_callback (w : world) (i : invocation) (result : string)
    (now : Z) : world :=
  let p := i_promise i in
  let w1 :=
    match examine (i_study i) (i_first i) result with
    | Normal (ResolveStored json) =>
        {| lock := lock w;
           promises := alter (settle (resolve json)) p (promises w);
           invocations := invocations w;
           storage := storage w |}
    | Normal (ResolveDone json) =>
        {| lock := lock w;
           promises := alter (settle (resolve json)) p (promises w);
           invocations := invocations w;
           storage := cache_study now (i_study i) (storage w) |}
    | Normal LogOnly => w
    | Throw e =>
        {| lock := lock w;
           promises := alter (settle (reject e)) p (promises w);
           invocations := invocations w;
           storage := storage w |}
    end in
  {| lock := delete (i_series i) (lock w1);
     promises := promises w1;
     invocations := invocations w1;
     storage := storage w1 |}.

Definition callback (w : world) (k : nat) (result : string) (now : Z) : world :=
  match invocations w !! k with
  | Some i => if i_accepted i then run_callback w i result now else w
  | None => w
  end.

(** [fetchData]: the promise executor runs at once, so the engine is
    called (and may throw, [scu_throws]) before [lock.set]; the function
    is [async], so the caller gets a second promise that follows
    [prom]. *)
Definition fetchData (w : world) (studyUid seriesUid : string)
    (waitForFirstImageOnly scu_throws : bool) : nat * world :=
  let j := {| r_tags := [ {| key := "00080052"; value := "SERIES" |};
                          {| key := "0020000D"; value := studyUid |};
                          {| key := "0020000E"; value := seriesUid |} ];
              r_source := source cfg;
              r_target := target cfg;
              r_storagePath := storagePath cfg |} in
  let scu := if useCget cfg then GetScu else MoveScu in
  let prom := length (promises w) in
  let call := {| i_engine := scu; i_request := j; i_study := studyUid;
                 i_series := seriesUid; i_first := waitForFirstImageOnly;
                 i_promise := prom; i_accepted := negb scu_throws |} in
  let state := if scu_throws then Rejected LibraryError else Pending in
  (S prom,
   {| lock := <[seriesUid := prom]> (lock w);
      promises := promises w ++ [Own state; Adopt prom];
      invocations := invocations w ++ [call];
      storage := storage w |}).

Definition waitOrFetchData (w : world) (studyUid seriesUid : string)
    (waitForFirstImageOnly scu_throws : bool) : nat * world :=
  match lock w !! seriesUid with
  | Some prom => (prom, w)
  | None => fetchData w studyUid seriesUid waitForFirstImageOnly scu_throws
  end.

(** What can happen next: a route calls [waitOrFetchData], or the engine
    invokes the callback of one of its calls. *)
Inductive event : Type :=
  | Request (studyUid seriesUid : string) (waitForFirstImageOnly scu_throws : bool)
  | Callback (k : nat) (result : string) (now : Z).

Definition step (w : world) (e : event) : world :=
  match e with
  | Request studyUid seriesUid first throws =>
      (waitOrFetchData w studyUid seriesUid first throws).2
  | Callback k result now => callback w k result now
  end.

Definition run (w : world) (events : list event) : world :=
  foldl step w events.

End WithEnvironment.

End Retrieve.

(** ** Cache store sweep: [clearCache] *)

Module Cache.
Import Js.

(** The store after a sweep and the directories handed to [fs.rmdir], in
    call order. *)
Record swept : Type := mkSwept {
  store : gmap string Z;
  rmdir_calls : list string
}.

Section WithFilesystem.

(** [fs.rmdir(directory, { recursive: true }, callback)]: [true] when the
    callback receives an error. *)
Variable rmdir_fails : string → bool.

Definition directory_of (storagePath uid : string) : string :=
  path_join [storagePath; uid].

(** The function passed to [storage.forEach], with the [rmdir] callback
    run in place. *)
Definition visit (storagePath currentUid : string) (currentDate : Z)
    (acc : swept) (item : string * Z) : swept :=
  let dt := item.2 in
  let directory := directory_of storagePath item.1 in
  if (dt <? currentDate) && negb (String.eqb item.1 currentUid) then
    if rmdir_fails directory then
      {| store := store acc; rmdir_calls := rmdir_calls acc ++ [directory] |}
    else
      {| store := delete item.1 (store acc);
         rmdir_calls := rmdir_calls acc ++ [directory] |}
  else acc.

(** The visited item loses its entry: it is expired, it is not the
    protected one, and its directory was deleted. *)
Definition evicts (storagePath currentUid : string) (currentDate : Z)
    (item : string * Z) : bool :=
  (item.2 <? currentDate) && negb (String.eqb item.1 currentUid)
  && negb (rmdir_fails (directory_of storagePath item.1)).

Definition clearCache (storagePath currentUid : string) (currentDate : Z)
    (storage : gmap string Z) : swept :=
  foldl (visit storagePath currentUid currentDate)
        {| store := storage; rmdir_calls := [] |}
        (map_to_list storage).

End WithFilesystem.

End Cache.

(** ** Metadata route of the web server *)

Module Metadata.
Import Js Promise.

(** The header fields the route reads, as [dataset.uint16] and
    [dataset.string] return them ([None] for an absent element). *)
Record dataset : Type := mkDataset {
  bitsAllocated : option Z;
  bitsStored : option Z;
  highBit : option Z;
  rows : option Z;
  cols : option Z;
  pixelSpacing : option string
}.

(** The content of a file as [dicomParser.parseDicom] sees it. *)
Inductive file : Type :=
  | Dicom (d : dataset)
  | NotDicom.

Definition parseDicom (f : file) : completion dataset :=
  match f with
  | Dicom d => Normal d
  | NotDicom => Throw LibraryError
  end.

(** How a request ends: a response was sent, an exception left the handler
    (nothing is sent), or the handler is still suspended at an [await]. *)
Inductive response : Type :=
  | Sent (statusCode : Z) (body : list json)
  | Failed (e : error)
  | Suspended.

(** [{ Value: [x], vr }], with an undefined [x] written as [null], the way
    [res.json] serialises it. *)
Definition element (x : option json) (vr : string) : json :=
  JObj [("Value", JArr [default JNull x]); ("vr", JStr vr)].

Definition stamp_fields (d : dataset) (fields : list (string * json))
  : list (string * json) :=
  set_field "00280030" (element (JStr <$> pixelSpacing d) "DS")
  (set_field "00280011" (element (JNum <$> cols d) "US")
  (set_field "00280010" (element (JNum <$> rows d) "US")
  (set_field "00280102" (element (JNum <$> highBit d) "US")
  (set_field "00280101" (element (JNum <$> bitsStored d) "US")
  (set_field "00280100" (element (JNum <$> bitsAllocated d) "US") fields))))).

(** The body of the [for] loop on one record: assignment to a property of
    [null] throws, assignment to a property of a primitive or of an array
    does not show in the serialised record. *)
Definition stamp (d : dataset) (record : json) : completion json :=
  match record with
  | JObj fields => Normal (JObj (stamp_fields d fields))
  | JNull => Throw TypeError
  | other => Normal other
  end.

Fixpoint stamp_all (d : dataset) (records : list json) : completion (list json) :=
  match records with
  | [] => Normal []
  | r :: rest => r' ← stamp d r; rest' ← stamp_all d rest; Normal (r' :: rest')
  end.

(** [v[0]]. *)
Definition first_item (v : option json) : completion (option json) :=
  match v with
  | None | Some JNull => Throw TypeError
  | Some (JArr items) => Normal (head items)
  | Some (JObj fields) => Normal (assoc "0" fields)
  | Some (JStr (String c _)) => Normal (Some (JStr (String c EmptyString)))
  | Some _ => Normal None
  end.

Section WithFilesystem.

Variable cfg : config.
(** [fs.readFile]: [None] when the callback receives an error. *)
Variable readFile : string → option file.

(** The handler after [doFind] has resolved with the array [json], for
    the state [retrieved] of the promise of [waitOrFetchData]. *)
Definition metadata (studyInstanceUid : string) (json : list Js.json)
    (retrieved : pstate) : response :=
  match retrieved with
  | Pending => Suspended
  | Rejected e => Failed e
  | Fulfilled v =>
      if (length json =? 0)%nat then Sent 500 json
      else
        let run : completion response :=
          sopInstanceUid ←
            (if truthy (Some v) then Normal (Some v)
             else
               a ← prop (head json) "00080018";
               b ← prop a "Value";
               first_item b);
          joined ← path_join_js [Some (JStr (storagePath cfg));
                                  Some (JStr studyInstanceUid);
                                  sopInstanceUid];
          let pathname := joined +:+ ".dcm" in
          match readFile pathname with
          | None => Normal (Sent 500 json)
          | Some data =>
              d ← parseDicom data;
              stamped ← stamp_all d json;
              Normal (Sent 200 stamped)
          end in
        match run with
        | Normal r => r
        | Throw e => Failed e
        end
  end.

End WithFilesystem.

End Metadata.

(** ** Sample environment

    A configuration, a dictionary extract and a handful of engine messages
    used to run the model on concrete inputs. [JSON_parse] is [JSON.parse]
    restricted to the listed texts; every other text is malformed. *)

Module Sample.
Import Js Promise.

Definition q : string := String "034"%char EmptyString.
Definition quoted (s : string) : string := q +:+ s +:+ q.

Definition cfg : config :=
  {| source := "PROXY@127.0.0.1:8888";
     target := "PACS@127.0.0.1:5678";
     storagePath := "data";
     useCget := false;
     keepCacheInMinutes := 60;
     qidoMinChars := 3;
     qidoAppendWildcard := true |}.

Definition standardDataElements : list (string * string) :=
  [("00100010", "PatientName");
   ("0020000D", "StudyInstanceUID");
   ("0020000E", "SeriesInstanceUID")].

(** [{"code":1,"container":{"SOPInstanceUID":"1.2.3.4"}}] *)
Definition stored_text : string :=
  "{" +:+ quoted "code" +:+ ":1," +:+ quoted "container" +:+ ":{"
      +:+ quoted "SOPInstanceUID" +:+ ":" +:+ quoted "1.2.3.4" +:+ "}}".
Definition stored_json : json :=
  JObj [("code", JNum 1); ("container", JObj [("SOPInstanceUID", JStr "1.2.3.4")])].

(** [{"code":0}] *)
Definition success_text : string := "{" +:+ quoted "code" +:+ ":0}".
Definition success_json : json := JObj [("code", JNum 0)].

(** [{"code":2}] *)
Definition failure_text : string := "{" +:+ quoted "code" +:+ ":2}".
Definition failure_json : json := JObj [("code", JNum 2)].

(** [{"code":0,"container":"[10,20,30]"}] *)
Definition found_text : string :=
  "{" +:+ quoted "code" +:+ ":0," +:+ quoted "container" +:+ ":"
      +:+ quoted "[10,20,30]" +:+ "}".
Definition found_json : json :=
  JObj [("code", JNum 0); ("container", JStr "[10,20,30]")].

Definition JSON_parse (v : option json) : option json :=
  match v with
  | Some (JStr s) =>
      assoc s [ (stored_text, stored_json);
                (success_text, success_json);
                (failure_text, failure_json);
                (found_text, found_json);
                ("[10,20,30]", JArr [JNum 10; JNum 20; JNum 30]) ]
  | _ => None
  end.

(** The world after a first metadata request for series [1.2.3] of study
    [1.2]. *)
Definition started : Retrieve.world :=
  (Retrieve.waitOrFetchData cfg Retrieve.init "1.2" "1.2.3" true false).2.

(** A store with two expired studies, and a file system that refuses to
    delete the directory of the second. *)
Definition expired_store : gmap string Z :=
  <["1.2" := 10]> (<["9.9" := 10]> ∅).
Definition rmdir_fails (directory : string) : bool :=
  String.eqb directory "data/9.9".

(** A result record of an IMAGE-level query and a readable file. *)
Definition record : json :=
  JObj [("00080018", JObj [("Value", JArr [JStr "1.2.3.4"]); ("vr", JStr "UI")])].
Definition image : Metadata.file :=
  Metadata.Dicom
    {| Metadata.bitsAllocated := Some 16; Metadata.bitsStored := Some 12;
       Metadata.highBit := Some 11; Metadata.rows := Some 512;
       Metadata.cols := Some 512; Metadata.pixelSpacing := Some "0.5\0.5" |}.
Definition readFile (pathname : string) : option Metadata.file :=
  if String.eqb pathname "data/1.2/1.2.3.4.dcm" then Some image else None.

End Sample.

(** ** Routes of the web server *)

Module Routes.
Import Js Promise.

(** The tags each query route always asks for. *)
Definition study_tags : list string :=
  ["00080005"; "00080020"; "00080030"; "00080050"; "00080054"; "00080056";
   "00080061"; "00080090"; "00081190"; "00100010"; "00100020"; "00100030";
   "00100040"; "0020000D"; "00200010"; "00201206"; "00201208"].

Definition series_tags : list string :=
  ["00080005"; "00080054"; "00080056"; "00080060"; "0008103E"; "00081190";
   "0020000E"; "00200011"; "00201209"].

Definition metadata_tags : list string := ["00080016"; "00080018"].

(** [query.k = v]: an own property keeps its place and takes the new
    value, a new property goes last. *)
Fixpoint set_param (k v : string) (query : list (string * string))
  : list (string * string) :=
  match query with
  | [] => [(k, v)]
  | (k', v') :: rest =>
      if String.eqb k k' then (k', v) :: rest else (k', v') :: set_param k v rest
  end.

(** How a request for image bytes ends. *)
Inductive image_response : Type :=
  | ImageSent (data : Metadata.file)      (* res.end(data), status 200 *)
  | ImageError                            (* status 500 and the message *)
  | ImageFailed (e : error)               (* an exception left the handler *)
  | ImageSuspended.                       (* still at an [await] *)

(** The handler of [/viewer/wadouri] up to its [await]. *)
Inductive image_request : Type :=
  | Threw (e : error)
  | Serving (pathname : string) (w : Retrieve.world)
  | Awaiting (pathname : string) (handle : nat) (w : Retrieve.world).

Section WithEnvironment.

Variable cfg : config.
Variable standardDataElements : list (string * string).

(** [GET /rs/studies]. *)
Definition studies (query : list (string * string)) : Find.find_call :=
  Find.doFind cfg standardDataElements "STUDY" query study_tags.

(** [GET /viewer/rs/studies/:studyInstanceUid/series]. *)
Definition series (studyInstanceUid : string) (query : list (string * string))
  : Find.find_call :=
  let query := set_param "StudyInstanceUID" studyInstanceUid query in
  Find.doFind cfg standardDataElements "SERIES" query series_tags.

(** The query of
    [GET /viewer/rs/studies/:studyInstanceUid/series/:seriesInstanceUid/metadata]. *)
Definition instances (studyInstanceUid seriesInstanceUid : string)
    (query : list (string * string)) : Find.find_call :=
  let query := set_param "StudyInstanceUID" studyInstanceUid query in
  let query := set_param "SeriesInstanceUID" seriesInstanceUid query in
  Find.doFind cfg standardDataElements "IMAGE" query metadata_tags.

(** [GET /viewer/wadouri]: the three query parameters may be missing
    ([undefined]); the series identifier is only looked at when the file is
    not there, and is then taken to be present. [fileExists] is the answer
    of [fs.access] at that moment. *)
Definition wadouri_path (studyUID objectUID : option string) : completion string :=
  joined ← path_join_js [Some (JStr (storagePath cfg));
                          JStr <$> studyUID; JStr <$> objectUID];
  Normal (joined +:+ ".dcm").

Definition wadouri (fileExists : string → bool) (w : Retrieve.world)
    (studyUID : option string) (seriesUID : string) (objectUID : option string)
    (scu_throws : bool) : image_request :=
  match wadouri_path studyUID objectUID with
  | Throw e => Threw e
  | Normal pathname =>
      if fileExists pathname then Serving pathname w
      else
        let r := Retrieve.waitOrFetchData cfg w (default EmptyString studyUID)
                   seriesUID false scu_throws in
        Awaiting pathname r.1 r.2
  end.

(** The rest of the handler: the file is read and sent, and the cache is
    swept with the served study protected. *)
Definition wadouri_serve (readFile : string → option Metadata.file)
    (rmdir_fails : string → bool) (currentDate : Z) (pathname studyUid : string)
    (storage : gmap string Z) : image_response * Cache.swept :=
  (match readFile pathname with
   | Some data => ImageSent data
   | None => ImageError
   end,
   Cache.clearCache rmdir_fails (storagePath cfg) studyUid currentDate storage).

(** The handler resumed from its [await] in the world [w]. *)
Definition wadouri_resume (readFile : string → option Metadata.file)
    (rmdir_fails : string → bool) (currentDate : Z) (pathname studyUid : string)
    (handle : nat) (w : Retrieve.world) : image_response * gmap string Z :=
  match Retrieve.outcome w handle with
  | Pending => (ImageSuspended, Retrieve.storage w)
  | Rejected e => (ImageFailed e, Retrieve.storage w)
  | Fulfilled _ =>
      let r := wadouri_serve readFile rmdir_fails currentDate pathname studyUid
                 (Retrieve.storage w) in
      (r.1, Cache.store r.2)
  end.

End WithEnvironment.

End Routes.

(** ** The cache write of a completed retrieve, step by step

    [Retrieve.run_callback] runs the continuation of
    [storage.getItem(studyUid)] within the step of the callback. Here the
    read and the continuation are steps of their own, so that the reads and
    writes of several completions can interleave. *)

Module CacheWrite.

(** A continuation that waits to run: its study and the item the read
    found. *)
Record waiter : Type := mkWaiter { w_study : string; w_item : option Z }.

Record state : Type := mkState {
  cw_store : gmap string Z;
  cw_waiting : list waiter
}.

Inductive event : Type :=
  | Read (studyUid : string)         (* getItem of a completion reads the store *)
  | Continue (i : nat) (now : Z).    (* the [i]-th waiting continuation runs *)

Section WithConfig.

Variable cfg : config.

(** The function passed to [then], applied to [item]. *)
Definition then_item (now : Z) (studyUid : string) (item : option Z)
    (store : gmap string Z) : gmap string Z :=
  match item with
  | Some _ => store
  | None =>
      let cacheTime := keepCacheInMinutes cfg in
      if 0 <=? cacheTime
      then <[studyUid := Retrieve.addMinutes now cacheTime]> store
      else store
  end.

Definition step (s : state) (e : event) : state :=
  match e with
  | Read studyUid =>
      {| cw_store := cw_store s;
         cw_waiting := cw_waiting s ++ [{| w_study := studyUid;
                                           w_item := cw_store s !! studyUid |}] |}
  | Continue i now =>
      match cw_waiting s !! i with
      | Some waiter =>
          {| cw_store := then_item now (w_study waiter) (w_item waiter) (cw_store s);
             cw_waiting := delete i (cw_waiting s) |}
      | None => s
      end
  end.

Definition run (s : state) (events : list event) : state := foldl step s events.

(** No waiting continuation of the study has read the store before the
    study had an entry. *)
Definition no_stale_read (studyUid : string) (s : state) : Prop :=
  ∀ waiter, waiter ∈ cw_waiting s → w_study waiter = studyUid →
            w_item waiter ≠ None.

End WithConfig.

End CacheWrite.

(** ** Notions used to state the properties *)

Module Notions.
Import Js Promise.

Section WithEnvironment.

Variable cfg : config.
Variable standardDataElements : list (string * string).

(** The filter term a query parameter contributes, if its name resolves. *)
Definition filter_term (param : string * string) : option tag :=
  match Find.findDicomName standardDataElements param.1 with
  | Some t =>
      if Find.nonempty (Some t) then
        Some {| key := t;
                value := if String.eqb t "00100010" && qidoAppendWildcard cfg
                         then param.2 +:+ "*" else param.2 |}
      else None
  | None => None
  end.

(** A patient-name parameter below the configured minimum length. *)
Definition too_short (param : string * string) : bool :=
  match Find.findDicomName standardDataElements param.1 with
  | Some t => String.eqb t "00100010"
              && (qidoMinChars cfg >? Z.of_nat (utf16_length param.2))
  | None => false
  end.

(** The include fields of a query followed by the defaults of the route. *)
Definition included (query : list (string * string)) (defaults : list string)
  : list string :=
  (if Find.nonempty (assoc "includefield" query)
   then Find.split_comma (default EmptyString (assoc "includefield" query))
   else []) ++ defaults.

End WithEnvironment.

(** An entry the sweep tries to delete: expired and not protected. *)
Definition due (currentUid : string) (currentDate : Z) (item : string * Z)
  : Prop :=
  item.2 < currentDate ∧ item.1 ≠ currentUid.

Definition is_request (e : Retrieve.event) : bool :=
  match e with
  | Retrieve.Request _ _ _ _ => true
  | Retrieve.Callback _ _ _ => false
  end.

(** Every handle in the lock map is a promise of its own that no callback
    has settled, every engine call has an allocated promise, and a live call
    whose promise is in the map is registered under its own series. *)
Record coherent (w : Retrieve.world) : Prop := mkCoherent {
  lock_unsettled :
    ∀ s p, Retrieve.lock w !! s = Some p →
      Retrieve.promises w !! p = Some (Retrieve.Own Pending) ∨
      Retrieve.promises w !! p = Some (Retrieve.Own (Rejected LibraryError));
  calls_allocated :
    ∀ k i, Retrieve.invocations w !! k = Some i →
      (Retrieve.i_promise i < length (Retrieve.promises w))%nat;
  calls_own_series :
    ∀ k i s, Retrieve.invocations w !! k = Some i →
      Retrieve.lock w !! s = Some (Retrieve.i_promise i) →
      Retrieve.i_series i = s
}.

End Notions.

(** ** Further sample data *)

Module Scenario.
Import Js Promise.

(** [null] and a stored-object message with a numeric identifier,
    [{"code":1,"container":{"SOPInstanceUID":7}}]. *)
Definition numeric_text : string :=
  "{" +:+ Sample.quoted "code" +:+ ":1," +:+ Sample.quoted "container" +:+ ":{"
      +:+ Sample.quoted "SOPInstanceUID" +:+ ":7}}".
Definition numeric_json : json :=
  JObj [("code", JNum 1); ("container", JObj [("SOPInstanceUID", JNum 7)])].

(** [{"code":0,"container":"{}"}] *)
Definition object_text : string :=
  "{" +:+ Sample.quoted "code" +:+ ":0," +:+ Sample.quoted "container" +:+ ":"
      +:+ Sample.quoted "{}" +:+ "}".
Definition object_json : json :=
  JObj [("code", JNum 0); ("container", JStr "{}")].

Definition JSON_parse (v : option json) : option json :=
  match v with
  | Some (JStr s) =>
      if String.eqb s "null" then Some JNull
      else if String.eqb s numeric_text then Some numeric_json
      else if String.eqb s object_text then Some object_json
      else if String.eqb s "{}" then Some (JObj [])
      else Sample.JSON_parse v
  | _ => None
  end.

(** A store with one expired and one fresh study at clock [100]. *)
Definition mixed_store : gmap string Z :=
  <["1.2" := 10]> (<["3.4" := 100]> ∅).

Definition never_fails (directory : string) : bool := false.


(** A store in which an expired entry has the empty key, next to the
    unexpired study [1.2]. *)
Definition rooted_store : gmap string Z :=
  <[EmptyString := 10]> (<["1.2" := 200]> ∅).

(** The sample configuration with caching switched off. *)
Definition no_cache : config :=
  {| source := source Sample.cfg;
     target := target Sample.cfg;
     storagePath := storagePath Sample.cfg;
     useCget := useCget Sample.cfg;
     keepCacheInMinutes := -1;
     qidoMinChars := qidoMinChars Sample.cfg;
     qidoAppendWildcard := qidoAppendWildcard Sample.cfg |}.

(** The engine call made for series [1.2.3] of study [1.2] by the image
    route, and the world right after it. *)
Definition image_call : Retrieve.invocation :=
  {| Retrieve.i_engine := Retrieve.MoveScu;
     Retrieve.i_request :=
       {| Retrieve.r_tags := [ {| key := "00080052"; value := "SERIES" |};
                               {| key := "0020000D"; value := "1.2" |};
                               {| key := "0020000E"; value := "1.2.3" |} ];
          Retrieve.r_source := source Sample.cfg;
          Retrieve.r_target := target Sample.cfg;
          Retrieve.r_storagePath := storagePath Sample.cfg |};
     Retrieve.i_study := "1.2"; Retrieve.i_series := "1.2.3";
     Retrieve.i_first := false;
     Retrieve.i_promise := 0; Retrieve.i_accepted := true |}.

Definition image_wait : Retrieve.world :=
  (Retrieve.fetchData Sample.cfg Retrieve.init "1.2" "1.2.3" false false).2.

(** The world after that retrieve has completed at clock [1000]. *)
Definition image_done : Retrieve.world :=
  Retrieve.callback Sample.cfg Sample.JSON_parse image_wait 0
    Sample.success_text 1000.

Definition geometry : Metadata.dataset :=
  {| Metadata.bitsAllocated := Some 16; Metadata.bitsStored := Some 12;
     Metadata.highBit := Some 11; Metadata.rows := Some 512;
     Metadata.cols := Some 512; Metadata.pixelSpacing := None |}.

(** A query string that tries to name another study. *)
Definition foreign_query : list (string * string) :=
  [("StudyInstanceUID", "9.9"); ("PatientName", "abc")].

Definition fileExists (pathname : string) : bool := false.

(** [é] followed by [a], and U+00A0 followed by [-2], in UTF-8. *)
Definition accented_name : string :=
  String (ascii_of_nat 195) (String (ascii_of_nat 169) "a").
Definition nbsp_minus_two : string :=
  String (ascii_of_nat 194) (String (ascii_of_nat 160) "-2").

(** A cache store that holds study [1.2] and an empty one, each with no
    continuation waiting. *)
Definition cached_state : CacheWrite.state :=
  {| CacheWrite.cw_store := <["1.2" := 5]> ∅; CacheWrite.cw_waiting := [] |}.
Definition empty_state : CacheWrite.state :=
  {| CacheWrite.cw_store := ∅; CacheWrite.cw_waiting := [] |}.

End Scenario.

(** * Properties *)

Import Js Promise.

(** ** Query translator *)

Section FindProperties.
Import Find.

Variable cfg : config.
Variable standardDataElements : list (string * string).
Variable JSON_parse : option json → option json.

Abbreviation findDicomName := (findDicomName standardDataElements).
Abbreviation patient_name := (patient_name standardDataElements).
Abbreviation search_params := (search_params cfg standardDataElements).
Abbreviation doFind := (doFind cfg standardDataElements).
Abbreviation find_callback := (find_callback JSON_parse).
Abbreviation find_promise := (find_promise JSON_parse).

Lemma search_params_short query propName v :
  (propName, v) ∈ query → patient_name propName →
  Z.of_nat (utf16_length v) < qidoMinChars cfg →
  ∀ tags, search_params query tags = None.
Proof.
  unfold patient_name. intros Hin Hname Hshort.
  induction query as [|[n' v'] rest IH]; intros tags.
  - by apply elem_of_nil in Hin.
  - apply elem_of_cons in Hin as [Heq | Hin].
    + injection Heq as <- <-. simpl. rewrite Hname. simpl.
      destruct (Z.gtb_spec (qidoMinChars cfg) (Z.of_nat (utf16_length v)))
        as [_ | Hle]; [done | lia].
    + simpl. specialize (IH Hin).
      repeat (case_match; try done); apply IH.
Qed.

Lemma search_params_long query :
  (∀ n v, (n, v) ∈ query → patient_name n →
          qidoMinChars cfg ≤ Z.of_nat (utf16_length v)) →
  ∀ tags, ∃ tags',
    search_params query tags = Some tags' ∧
    (∀ t, t ∈ tags → t ∈ tags') ∧
    (∀ n v, (n, v) ∈ query → patient_name n →
       {| key := "00100010";
          value := if qidoAppendWildcard cfg then v +:+ "*" else v |} ∈ tags').
Proof.
  unfold patient_name.
  induction query as [|[n' v'] rest IH]; intros Hall tags.
  - exists tags. split; [done |]. split; [done |].
    intros n v Hin. by apply elem_of_nil in Hin.
  - assert (Hrest : ∀ n v, (n, v) ∈ rest → findDicomName n = Some "00100010" →
                      qidoMinChars cfg ≤ Z.of_nat (utf16_length v)).
    { intros n v Hin. apply Hall. by apply elem_of_cons; right. }
    simpl. destruct (findDicomName n') as [t|] eqn:Hname.
    + destruct (negb (String.eqb t EmptyString)) eqn:Hne.
      * destruct (String.eqb_spec t "00100010") as [-> | Hother].
        -- assert (Hlen := Hall n' v' ltac:(by apply elem_of_cons; left) Hname).
           destruct (Z.gtb_spec (qidoMinChars cfg) (Z.of_nat (utf16_length v')))
             as [Hgt | _]; [lia |].
           destruct (IH Hrest
                       (tags ++ [{| key := "00100010";
                                    value := if qidoAppendWildcard cfg
                                             then v' +:+ "*" else v' |}]))
             as (tags' & Heq & Hsub & Hnames).
           exists tags'. split; [done |]. split.
           ++ intros t Ht. apply Hsub, elem_of_app. by left.
           ++ intros n v Hin Hn. apply elem_of_cons in Hin as [Heq' | Hin].
              ** injection Heq' as -> ->. apply Hsub, elem_of_app. right.
                 by apply list_elem_of_singleton.
              ** by apply (Hnames n v).
        -- destruct (IH Hrest (tags ++ [{| key := t; value := v' |}]))
             as (tags' & Heq & Hsub & Hnames).
           exists tags'. split; [done |]. split.
           ++ intros t' Ht. apply Hsub, elem_of_app. by left.
           ++ intros n v Hin Hn. apply elem_of_cons in Hin as [Heq' | Hin].
              ** injection Heq' as -> ->. congruence.
              ** by apply (Hnames n v).
      * destruct (IH Hrest tags) as (tags' & Heq & Hsub & Hnames).
        exists tags'. split; [done |]. split; [done |].
        intros n v Hin Hn. apply elem_of_cons in Hin as [Heq' | Hin].
        -- injection Heq' as -> ->. rewrite Hname in Hn.
           injection Hn as ->. discriminate Hne.
        -- by apply (Hnames n v).
    + destruct (IH Hrest tags) as (tags' & Heq & Hsub & Hnames).
      exists tags'. split; [done |]. split; [done |].
      intros n v Hin Hn. apply elem_of_cons in Hin as [Heq' | Hin].
      * injection Heq' as -> ->. congruence.
      * by apply (Hnames n v).
Qed.

(** C8. A query with a patient-name parameter shorter than [qidoMinChars]
    makes [doFind] return the empty array at once, without a call of the
    archive-query engine; when no patient-name value is too short the
    engine is called, and the patient-name filter term carries the value
    with [*] appended when [qidoAppendWildcard] is set. *)
Theorem doFind_patient_name_policy level query defaults propName v :
  (propName, v) ∈ query → patient_name propName →
  (Z.of_nat (utf16_length v) < qidoMinChars cfg →
     doFind level query defaults = Returned []) ∧
  ((∀ n' v', (n', v') ∈ query → patient_name n' →
             qidoMinChars cfg ≤ Z.of_nat (utf16_length v')) →
     ∃ request offset,
       doFind level query defaults = Invoked request offset ∧
       {| key := "00100010";
          value := if qidoAppendWildcard cfg then v +:+ "*" else v |}
         ∈ f_tags request).
Proof.
  intros Hin Hname. split.
  - intros Hshort. unfold Find.doFind.
    by rewrite (search_params_short query propName v Hin Hname Hshort).
  - intros Hall. unfold Find.doFind.
    destruct (search_params_long query Hall
                ([{| key := "00080052"; value := level |}] ++
                 map (parsed_tag standardDataElements)
                   ((if nonempty (assoc "includefield" query)
                     then split_comma (default EmptyString (assoc "includefield" query))
                     else []) ++ defaults)))
      as (tags' & -> & _ & Hnames).
    eexists _, _. split; [reflexivity |]. simpl. by apply (Hnames propName v).
Qed.

Lemma parseInt_empty : parseInt EmptyString = None.
Proof. reflexivity. Qed.

Lemma slice_from_end {A} (k : Z) (l : list A) :
  0 < k →
  slice (Some (- k)) l = drop (length l - Nat.min (Z.to_nat k) (length l)) l.
Proof.
  intros Hk. unfold slice, slice_start.
  destruct (Z.ltb_spec (- k) 0) as [_ | Hge]; [| lia].
  f_equal. lia.
Qed.

(** C10. With an [offset] parameter that parses to [-k], a success
    message whose container parses to an array of [n] records resolves
    the promise of [doFind] with the last [min k n] records. *)
Theorem doFind_negative_offset level query defaults off k request offset
    result j c (records : list json) :
  assoc "offset" query = Some off → parseInt off = Some (- k) → 0 < k →
  doFind level query defaults = Invoked request offset →
  JSON_parse (Some (JStr result)) = Some j →
  prop (Some j) "code" = Normal (Some (JNum 0)) →
  prop (Some j) "container" = Normal c →
  JSON_parse c = Some (JArr records) →
  let m := Nat.min (Z.to_nat k) (length records) in
  find_promise offset [result]
    = Fulfilled (JArr (drop (length records - m) records)) ∧
  length (drop (length records - m) records) = m.
Proof.
  intros Hoff Hparse Hk Hfind Hj Hcode Hcontainer Hc m.
  assert (Hoffset : offset = Some (- k)).
  { unfold Find.doFind in Hfind.
    destruct (search_params _ _) as [tags|]; [| discriminate].
    rewrite Hoff in Hfind. injection Hfind as _ <-.
    destruct off as [|a off]; [by rewrite parseInt_empty in Hparse |].
    simpl. exact Hparse. }
  subst offset. split.
  - unfold Find.find_promise, deliver, Find.find_callback, Find.parse.
    cbn -[prop]. rewrite Hj. cbn -[prop]. rewrite Hcode. cbn -[prop].
    rewrite Hcontainer. cbn -[prop]. rewrite Hc. cbn -[slice].
    by rewrite slice_from_end.
  - rewrite length_drop. lia.
Qed.

(** The branches of the callback of [findScu]. *)
Lemma find_callback_malformed offset result :
  JSON_parse (Some (JStr result)) = None →
  find_callback offset result = Some (JArr []).
Proof. intros H. unfold Find.find_callback, Find.parse. by rewrite H. Qed.

Lemma find_callback_error_code offset result j code :
  JSON_parse (Some (JStr result)) = Some j →
  prop (Some j) "code" = Normal code → is_num code 0 = false →
  find_callback offset result = None.
Proof.
  intros Hj Hcode Hnum. unfold Find.find_callback, Find.parse.
  rewrite Hj. cbn -[prop is_num]. rewrite Hcode. cbn -[prop is_num].
  by rewrite Hnum.
Qed.

(** C4, on the code. Messages that parse and carry a code other than [0]
    never settle the promise of [doFind]: however many of them the engine
    delivers, the promise stays pending, where the specification asks
    for the empty list. *)
Theorem doFind_error_code_unresolved offset results :
  Forall (λ r, ∃ j code, JSON_parse (Some (JStr r)) = Some j ∧
                         prop (Some j) "code" = Normal code ∧
                         is_num code 0 = false) results →
  find_promise offset results = Pending.
Proof.
  unfold Find.find_promise. induction 1 as [|r rest (j & code & Hj & Hcode & Hnum) _ IH].
  - reflexivity.
  - cbn [foldl]. unfold deliver at 2.
    by rewrite (find_callback_error_code offset r j code Hj Hcode Hnum).
Qed.

End FindProperties.

(** The translator on concrete inputs. *)
Example parseInt_samples :
  (Find.parseInt "-3", Find.parseInt " 12px", Find.parseInt "0x1F",
   Find.parseInt "abc", Find.parseInt "-")
  = (Some (-3), Some 12, Some 31, None, None).
Proof. reflexivity. Qed.

Example offset_five_of_ten :
  slice (Some 5) [0; 1; 2; 3; 4; 5; 6; 7; 8; 9] = [5; 6; 7; 8; 9].
Proof. reflexivity. Qed.

Example includefield_is_resolved :
  Find.doFind Sample.cfg Sample.standardDataElements "STUDY"
    [("includefield", "PatientName,00080061"); ("StudyInstanceUID", "1.2")]
    ["00080020"]
  = Find.Invoked
      {| Find.f_tags := [ {| key := "00080052"; value := "STUDY" |};
                          {| key := "00100010"; value := EmptyString |};
                          {| key := "00080061"; value := EmptyString |};
                          {| key := "00080020"; value := EmptyString |};
                          {| key := "0020000D"; value := "1.2" |} ];
         Find.f_source := source Sample.cfg;
         Find.f_target := target Sample.cfg |}
      (Some 0).
Proof. reflexivity. Qed.

Example malformed_text_resolves_empty :
  Find.find_promise Sample.JSON_parse (Some 0) ["<html>"] = Fulfilled (JArr []).
Proof. reflexivity. Qed.

(** The minimum length counts UTF-16 code units: [é] followed by [a] is
    three bytes and two units, below the minimum of three. *)
Example accented_name_is_too_short :
  Find.doFind Sample.cfg Sample.standardDataElements "STUDY"
    [("PatientName", Scenario.accented_name)] []
  = Find.Returned [].
Proof. reflexivity. Qed.

(** [parseInt] skips a no-break space before the sign. *)
Example offset_after_no_break_space :
  Find.parseInt Scenario.nbsp_minus_two = Some (-2) ∧
  Find.find_promise Sample.JSON_parse (Find.parseInt Scenario.nbsp_minus_two)
    [Sample.found_text]
  = Fulfilled (JArr [JNum 20; JNum 30]).
Proof. split; reflexivity. Qed.

(** [path.join] normalises: a [.] segment and an empty argument vanish. *)
Example path_join_samples :
  (path_join ["data"; "1.2"; "1.2.3.4"], path_join ["data"; "./1.2"],
   path_join ["data"; EmptyString], path_join ["data"; ".."; "x"])
  = ("data/1.2/1.2.3.4", "data/1.2", "data", "x").
Proof. reflexivity. Qed.

Lemma doFind_patient_name_policy_witness :
  Find.doFind Sample.cfg Sample.standardDataElements "STUDY"
    [("PatientName", "ab")] [] = Find.Returned [] ∧
  ∃ request offset,
    Find.doFind Sample.cfg Sample.standardDataElements "STUDY"
      [("PatientName", "abc")] [] = Find.Invoked request offset ∧
    {| key := "00100010"; value := "abc*" |} ∈ Find.f_tags request.
Proof.
  split.
  - apply (proj1 (doFind_patient_name_policy Sample.cfg Sample.standardDataElements
                    "STUDY" [("PatientName", "ab")] [] "PatientName" "ab"
                    (list_elem_of_here _ _) eq_refl)).
    simpl. lia.
  - apply (proj2 (doFind_patient_name_policy Sample.cfg Sample.standardDataElements
                    "STUDY" [("PatientName", "abc")] [] "PatientName" "abc"
                    (list_elem_of_here _ _) eq_refl)).
    intros n' v' Hin _. apply list_elem_of_singleton in Hin.
    injection Hin as -> ->. simpl. lia.
Defined.

Lemma doFind_negative_offset_witness :
  Find.find_promise Sample.JSON_parse (Some (-2)) [Sample.found_text]
    = Fulfilled (JArr [JNum 20; JNum 30]).
Proof.
  apply (doFind_negative_offset Sample.cfg Sample.standardDataElements
           Sample.JSON_parse "IMAGE" [("offset", "-2")] [] "-2" 2
           {| Find.f_tags := [{| key := "00080052"; value := "IMAGE" |}];
              Find.f_source := source Sample.cfg;
              Find.f_target := target Sample.cfg |}
           (Some (-2)) Sample.found_text Sample.found_json
           (Some (JStr "[10,20,30]")) [JNum 10; JNum 20; JNum 30]);
    solve [reflexivity | lia].
Defined.

Lemma doFind_error_code_unresolved_witness :
  Find.find_promise Sample.JSON_parse (Some 0) [Sample.failure_text] = Pending.
Proof.
  apply (doFind_error_code_unresolved Sample.JSON_parse (Some 0) [Sample.failure_text]).
  constructor; [| constructor].
  exists Sample.failure_json, (Some (JNum 2)). repeat split; reflexivity.
Defined.

(** ** Retrieve coordinator *)

Section RetrieveProperties.
Import Retrieve.

Variable cfg : config.
Variable JSON_parse : option json → option json.

Abbreviation examine := (examine cfg JSON_parse).
Abbreviation run_callback := (run_callback cfg JSON_parse).
Abbreviation callback := (callback cfg JSON_parse).
Abbreviation fetchData := (fetchData cfg).
Abbreviation waitOrFetchData := (waitOrFetchData cfg).
Abbreviation step := (step cfg JSON_parse).
Abbreviation run := (run cfg JSON_parse).

(** *** What one transition changes *)

Lemma settle_id c : settle (λ s, s) c = c.
Proof. by destruct c. Qed.

Lemma run_callback_invocations w i result now :
  invocations (run_callback w i result now) = invocations w.
Proof.
  unfold Retrieve.run_callback.
  destruct (examine _ _ _) as [[| |]|]; reflexivity.
Qed.

Lemma run_callback_lock w i result now :
  lock (run_callback w i result now) = delete (i_series i) (lock w).
Proof.
  unfold Retrieve.run_callback.
  destruct (examine _ _ _) as [[| |]|]; reflexivity.
Qed.

Lemma examine_object studyUid first result v :
  examine studyUid first result = Normal (ResolveStored v) ∨
  examine studyUid first result = Normal (ResolveDone v) →
  ∃ fields, v = JObj fields.
Proof.
  unfold Retrieve.examine, Retrieve.parse.
  destruct (JSON_parse (Some (JStr result))) as [j|]; cbn; [| by intros [|]].
  destruct j as [|b|n|s|items|fields]; cbn;
    try (by intros [|]);
    try (rewrite andb_false_r; cbn; by intros [|]).
  intros H. exists fields.
  destruct (first && is_num (assoc "code" fields) 1);
    destruct (is_num (assoc "code" fields) 0 || is_num (assoc "code" fields) 2);
    try destruct (prop (assoc "container" fields) "SOPInstanceUID")
      as [[[|b|n|s|items|fs]|]|];
    cbn in H; try destruct (negb (String.eqb s EmptyString));
    try destruct b; try destruct (negb (n =? 0));
    cbn in H; destruct H as [H | H]; congruence.
Qed.

Lemma resolve_object fields : fulfils_with_object (resolve (JObj fields)).
Proof. intros [|v'|e'] v; cbn; intros [= <-]; eauto. Qed.

Lemma reject_object e : fulfils_with_object (reject e).
Proof. intros [|v'|e'] v; cbn; intros [= <-]; eauto. Qed.

Lemma id_object : fulfils_with_object (λ s, s).
Proof. intros s v ->. by left. Qed.

Lemma run_callback_promises w i result now :
  ∃ f, promises (run_callback w i result now)
       = alter (settle f) (i_promise i) (promises w) ∧
       fulfils_with_object f.
Proof.
  unfold Retrieve.run_callback.
  destruct (examine _ _ _) as [[json|json|]|e] eqn:He; cbn [promises].
  - destruct (examine_object _ _ _ json (or_introl He)) as [fields ->].
    eauto using resolve_object.
  - destruct (examine_object _ _ _ json (or_intror He)) as [fields ->].
    eauto using resolve_object.
  - exists (λ s, s). split; [| apply id_object].
    symmetry. apply list_alter_id, settle_id.
  - eauto using reject_object.
Qed.

Lemma callback_invocations w k result now :
  invocations (callback w k result now) = invocations w.
Proof.
  unfold Retrieve.callback. destruct (invocations w !! k) as [i|]; [| done].
  destruct (i_accepted i); [| done]. apply run_callback_invocations.
Qed.

Lemma callback_lock_Some w k result now seriesUid p :
  lock (callback w k result now) !! seriesUid = Some p →
  lock w !! seriesUid = Some p.
Proof.
  unfold Retrieve.callback. destruct (invocations w !! k) as [i|]; [| done].
  destruct (i_accepted i); [| done]. rewrite run_callback_lock.
  intros H. by apply lookup_delete_Some in H as [_ H].
Qed.

Lemma callback_promises w k result now :
  ∃ f p, promises (callback w k result now) = alter (settle f) p (promises w) ∧
         fulfils_with_object f.
Proof.
  unfold Retrieve.callback.
  destruct (invocations w !! k) as [i|]; [destruct (i_accepted i) |].
  - destruct (run_callback_promises w i result now) as (f & Hf & Hobj). eauto.
  - exists (λ s, s), 0%nat. split; [| apply id_object].
    symmetry. apply list_alter_id, settle_id.
  - exists (λ s, s), 0%nat. split; [| apply id_object].
    symmetry. apply list_alter_id, settle_id.
Qed.

Lemma step_promises w e :
  (∃ f p, promises (step w e) = alter (settle f) p (promises w) ∧
          fulfils_with_object f) ∨
  (∃ added, promises (step w e) = promises w ++ added ∧
            ∀ c, c ∈ added → ∀ v, c ≠ Own (Fulfilled v)).
Proof.
  destruct e as [studyUid seriesUid first throws | k result now]; cbn [Retrieve.step].
  - right. unfold Retrieve.waitOrFetchData.
    destruct (lock w !! seriesUid).
    + exists []. split; [by rewrite app_nil_r |].
      intros c Hc. by apply elem_of_nil in Hc.
    + cbn. eexists. split; [reflexivity |].
      intros c Hc v. repeat (apply elem_of_cons in Hc as [-> | Hc]).
      * by destruct throws.
      * done.
      * by apply elem_of_nil in Hc.
  - left. apply callback_promises.
Qed.

Lemma step_length w e :
  (length (promises w) ≤ length (promises (step w e)))%nat.
Proof.
  destruct (step_promises w e) as [(f & p & -> & _) | (added & -> & _)].
  - by rewrite length_alter.
  - rewrite length_app. lia.
Qed.

Lemma step_adopt w e h p :
  promises w !! h = Some (Adopt p) →
  promises (step w e) !! h = Some (Adopt p).
Proof.
  intros H.
  destruct (step_promises w e) as [(f & q & -> & _) | (added & -> & _)].
  - rewrite list_lookup_alter. case_decide; [subst q |]; by rewrite H.
  - by apply lookup_app_l_Some.
Qed.

Lemma step_own w e p s :
  promises w !! p = Some (Own s) →
  ∃ s', promises (step w e) !! p = Some (Own s').
Proof.
  intros H.
  destruct (step_promises w e) as [(f & q & -> & _) | (added & -> & _)].
  - rewrite list_lookup_alter. case_decide; [subst q |]; rewrite H; cbn; eauto.
  - exists s. by apply lookup_app_l_Some.
Qed.

Lemma run_follows events w h p s :
  promises w !! h = Some (Adopt p) → promises w !! p = Some (Own s) →
  outcome (run w events) h = outcome (run w events) p.
Proof.
  revert w s. induction events as [|e events IH]; intros w s Hh Hp.
  - cbn. unfold outcome, own_state. by rewrite Hh, Hp.
  - cbn [Retrieve.run foldl].
    destruct (step_own w e p s Hp) as [s' Hp'].
    apply (IH (step w e) s'); [by apply step_adopt | done].
Qed.

(** *** Single flight *)

Lemma retrieves_for_app seriesUid w call l p s :
  retrieves_for seriesUid
    {| lock := l; promises := p; invocations := invocations w ++ [call];
       storage := s |}
  = (retrieves_for seriesUid w
     + if decide (i_series call = seriesUid) then 1 else 0)%nat.
Proof.
  unfold retrieves_for. cbn [invocations].
  rewrite filter_app, length_app. f_equal.
  rewrite filter_cons, filter_nil. by case_decide.
Qed.

(** A promise allocated earlier can only be found in the lock map after a
    transition if it was there before, and then no engine call was made
    for its series. *)
Lemma step_registration w e seriesUid p :
  (p < length (promises w))%nat →
  lock (step w e) !! seriesUid = Some p →
  lock w !! seriesUid = Some p ∧
  retrieves_for seriesUid (step w e) = retrieves_for seriesUid w.
Proof.
  intros Hp.
  destruct e as [studyUid s first throws | k result now]; cbn [Retrieve.step].
  - unfold Retrieve.waitOrFetchData. destruct (lock w !! s) eqn:Hs; [done |].
    unfold Retrieve.fetchData. cbn [snd lock].
    destruct (decide (s = seriesUid)) as [-> | Hne].
    + rewrite lookup_insert_eq. intros [= <-]. lia.
    + rewrite lookup_insert_ne by done. intros H. split; [done |].
      rewrite retrieves_for_app. cbn [i_series]. case_decide; [done | lia].
  - intros H. split; [by eapply callback_lock_Some |].
    unfold retrieves_for. by rewrite callback_invocations.
Qed.

Lemma run_registration events w seriesUid p :
  (p < length (promises w))%nat →
  lock (run w events) !! seriesUid = Some p →
  lock w !! seriesUid = Some p ∧
  retrieves_for seriesUid (run w events) = retrieves_for seriesUid w.
Proof.
  revert w. induction events as [|e events IH]; intros w Hp H; [done |].
  cbn [Retrieve.run foldl] in *.
  destruct (IH (step w e)) as [Hlock Hcount]; [| done |].
  { pose proof (step_length w e). lia. }
  destruct (step_registration w e seriesUid p Hp Hlock) as [Hlock' Hcount'].
  split; [done |]. etrans; [exact Hcount | exact Hcount'].
Qed.

(** A call for a series that has a handle returns that handle and changes
    nothing. *)
Lemma join_existing w studyUid seriesUid first throws p :
  lock w !! seriesUid = Some p →
  waitOrFetchData w studyUid seriesUid first throws = (p, w).
Proof. intros H. unfold Retrieve.waitOrFetchData. by rewrite H. Qed.

(** Joining. A call of [waitOrFetchData] for a series that has no handle makes
    one engine call and leaves the new handle in the lock map when it
    returns. A second call for the series, made after any events that
    leave that handle in the map, makes no engine call, so exactly one
    was made for the series; and at any later time both callers observe
    the same outcome. *)
Theorem single_flight w studyUid1 seriesUid first1 throws1 between
    studyUid2 first2 throws2 later :
  let r1 := waitOrFetchData w studyUid1 seriesUid first1 throws1 in
  let w2 := run r1.2 between in
  let r2 := waitOrFetchData w2 studyUid2 seriesUid first2 throws2 in
  lock w !! seriesUid = None →
  lock w2 !! seriesUid = lock r1.2 !! seriesUid →
  is_Some (lock r1.2 !! seriesUid) ∧
  retrieves_for seriesUid r2.2 = S (retrieves_for seriesUid w) ∧
  outcome (run r2.2 later) r1.1 = outcome (run r2.2 later) r2.1.
Proof.
  intros r1 w2 r2 Hfree Hstill.
  set (p := length (promises w)).
  assert (Hr1 : r1 = fetchData w studyUid1 seriesUid first1 throws1).
  { subst r1. unfold Retrieve.waitOrFetchData. by rewrite Hfree. }
  assert (Hlock1 : lock r1.2 !! seriesUid = Some p).
  { rewrite Hr1. cbn. apply lookup_insert_eq. }
  assert (Hcount1 : retrieves_for seriesUid r1.2 = S (retrieves_for seriesUid w)).
  { rewrite Hr1. unfold Retrieve.fetchData. cbn [snd].
    rewrite retrieves_for_app. cbn [i_series]. case_decide; [lia | done]. }
  assert (Hlen1 : (p < length (promises r1.2))%nat).
  { rewrite Hr1. cbn. rewrite length_app. cbn. lia. }
  assert (Hown : ∃ s, promises r1.2 !! p = Some (Own s)).
  { rewrite Hr1. cbn. eexists. rewrite lookup_app_r by done.
    by replace (p - length (promises w))%nat with 0%nat by lia. }
  assert (Hadopt : promises r1.2 !! r1.1 = Some (Adopt p)).
  { rewrite Hr1. cbn. rewrite lookup_app_r by (fold p; lia).
    by replace (S (length (promises w)) - length (promises w))%nat
      with 1%nat by lia. }
  rewrite Hlock1 in Hstill.
  destruct (run_registration between r1.2 seriesUid p Hlen1 Hstill)
    as [_ Hcount2].
  assert (Hr2 : r2 = (p, w2)).
  { subst r2. unfold Retrieve.waitOrFetchData. by rewrite Hstill. }
  split; [by rewrite Hlock1 |]. split.
  - rewrite Hr2. cbn [snd]. subst w2. congruence.
  - rewrite Hr2. cbn [fst snd]. subst w2.
    unfold Retrieve.run. rewrite <- foldl_app.
    destruct Hown as [s Hown]. by eapply run_follows.
Qed.

(** *** The callback of a retrieve that has just started *)

Lemma fresh_cells (cells : list cell) s :
  (cells ++ [Own s; Adopt (length cells)]) !! length cells = Some (Own s) ∧
  (cells ++ [Own s; Adopt (length cells)]) !! S (length cells)
  = Some (Adopt (length cells)).
Proof.
  split.
  - by apply list_lookup_middle.
  - rewrite lookup_app_r by lia.
    by replace (S (length cells) - length cells)%nat with 1%nat by lia.
Qed.

Lemma fresh_cells_altered (cells : list cell) s f :
  alter (settle f) (length cells) (cells ++ [Own s; Adopt (length cells)])
    !! length cells = Some (Own (f s)) ∧
  alter (settle f) (length cells) (cells ++ [Own s; Adopt (length cells)])
    !! S (length cells) = Some (Adopt (length cells)).
Proof.
  destruct (fresh_cells cells s) as [Hp HS]. split.
  - rewrite list_lookup_alter_eq. by rewrite Hp.
  - rewrite list_lookup_alter_ne by lia. exact HS.
Qed.

Lemma fetchData_outcome w studyUid seriesUid first throws :
  let started := fetchData w studyUid seriesUid first throws in
  outcome started.2 started.1
  = if throws then Rejected LibraryError else Pending.
Proof.
  cbn. unfold outcome, own_state. cbn [promises].
  destruct (fresh_cells (promises w)
              (if throws then Rejected LibraryError else Pending)) as [Hp HS].
  by rewrite HS, Hp.
Qed.

(** After the first callback of a retrieve the series is out of the lock
    map, whatever the callback decided, and the caller's promise is
    settled by the first two branches and by an exception only. *)
Lemma first_callback w studyUid seriesUid first result now :
  let started := fetchData w studyUid seriesUid first false in
  let after := callback started.2 (length (invocations w)) result now in
  lock after !! seriesUid = None ∧
  outcome after started.1
  = match examine studyUid first result with
    | Normal (ResolveStored v) | Normal (ResolveDone v) => Fulfilled v
    | Normal LogOnly => Pending
    | Throw e => Rejected e
    end.
Proof.
  intros started after. subst after started.
  unfold Retrieve.callback, Retrieve.fetchData. cbn [snd fst invocations].
  rewrite list_lookup_middle by done. cbn [i_accepted negb].
  unfold Retrieve.run_callback. cbn [i_study i_first i_promise i_series].
  split.
  - destruct (examine _ _ _) as [[v|v|]|e]; cbn [lock]; apply lookup_delete_eq.
  - unfold outcome, own_state.
    destruct (examine _ _ _) as [[v|v|]|e]; cbn [promises].
    + destruct (fresh_cells_altered (promises w) Pending (resolve v)) as [Hp HS].
      by rewrite HS, Hp.
    + destruct (fresh_cells_altered (promises w) Pending (resolve v)) as [Hp HS].
      by rewrite HS, Hp.
    + destruct (fresh_cells (promises w) Pending) as [Hp HS].
      by rewrite HS, Hp.
    + destruct (fresh_cells_altered (promises w) Pending (reject e)) as [Hp HS].
      by rewrite HS, Hp.
Qed.

Lemma examine_stored studyUid result json container sop :
  JSON_parse (Some (JStr result)) = Some json →
  prop (Some json) "code" = Normal (Some (JNum 1)) →
  prop (Some json) "container" = Normal container →
  prop container "SOPInstanceUID" = Normal (Some (JStr sop)) →
  sop ≠ EmptyString →
  examine studyUid true result = Normal (ResolveStored json).
Proof.
  intros Hj Hcode Hcontainer Hsop Hne. unfold Retrieve.examine, Retrieve.parse.
  rewrite Hj. cbn -[prop]. rewrite Hcode. cbn -[prop].
  rewrite Hcontainer. cbn -[prop]. rewrite Hsop. cbn.
  by destruct (String.eqb_spec sop EmptyString).
Qed.

Lemma examine_done studyUid first result json code :
  JSON_parse (Some (JStr result)) = Some json →
  prop (Some json) "code" = Normal (Some (JNum code)) →
  code = 0 ∨ code = 2 →
  examine studyUid first result = Normal (ResolveDone json).
Proof.
  intros Hj Hcode Hc. unfold Retrieve.examine, Retrieve.parse.
  rewrite Hj. cbn -[prop]. rewrite Hcode. cbn -[prop].
  destruct Hc as [-> | ->]; cbn; by rewrite andb_false_r.
Qed.

(** C3, on the code. With [waitForFirstImageOnly] set, the first
    single-object-stored message settles the promise at once, but with
    the whole parsed message: the outcome is not the object identifier
    that the specification asks for. *)
Theorem first_image_outcome_is_message w studyUid seriesUid result json
    container sop now :
  JSON_parse (Some (JStr result)) = Some json →
  prop (Some json) "code" = Normal (Some (JNum 1)) →
  prop (Some json) "container" = Normal container →
  prop container "SOPInstanceUID" = Normal (Some (JStr sop)) →
  sop ≠ EmptyString →
  let started := fetchData w studyUid seriesUid true false in
  let after := callback started.2 (length (invocations w)) result now in
  outcome after started.1 = Fulfilled json ∧ json ≠ JStr sop.
Proof.
  intros Hj Hcode Hcontainer Hsop Hne started after. split.
  - destruct (first_callback w studyUid seriesUid true result now) as [_ H].
    unfold after, started. rewrite H.
    by rewrite (examine_stored studyUid result json container sop).
  - intros ->. discriminate Hcode.
Qed.

(** *** Lifetime of a lock entry *)

Lemma step_orphan w e seriesUid p :
  lock w !! seriesUid = Some p → no_live_call seriesUid w →
  lock (step w e) !! seriesUid = Some p ∧ no_live_call seriesUid (step w e).
Proof.
  intros Hlock Hdead.
  destruct e as [studyUid s first throws | k result now]; cbn [Retrieve.step].
  - unfold Retrieve.waitOrFetchData. destruct (lock w !! s) eqn:Hs; [done |].
    assert (s ≠ seriesUid) by congruence.
    unfold Retrieve.fetchData. cbn [snd]. split.
    + cbn [lock]. by rewrite lookup_insert_ne.
    + intros k i. cbn [invocations]. intros Hk Hacc.
      apply lookup_app_Some in Hk as [Hk | [_ Hk]]; [by eapply Hdead |].
      apply list_lookup_singleton_Some in Hk as [_ <-]. done.
  - split.
    + unfold Retrieve.callback.
      destruct (invocations w !! k) as [i|] eqn:Hk; [| done].
      destruct (i_accepted i) eqn:Hacc; [| done].
      rewrite run_callback_lock, lookup_delete_ne; [done |].
      by eapply Hdead.
    + unfold no_live_call. by rewrite callback_invocations.
Qed.

Lemma run_orphan events w seriesUid p :
  lock w !! seriesUid = Some p → no_live_call seriesUid w →
  lock (run w events) !! seriesUid = Some p.
Proof.
  revert w. induction events as [|e events IH]; intros w Hlock Hdead; [done |].
  destruct (step_orphan w e seriesUid p Hlock Hdead) as [Hlock' Hdead'].
  by apply (IH (step w e)).
Qed.

(** C2, on the code. The entry of a series is deleted at the end of every
    callback run: a message that only gets logged removes it while the
    promise is still pending. And [lock.set] runs after the promise
    executor: when the engine call itself throws the promise is rejected,
    the entry is stored afterwards and, unless an earlier engine call for
    the series is still live, no later event removes it. The
    specification asks for removal after, and only after, the promise
    settles. *)
Theorem lock_entry_lifetime w studyUid seriesUid first result now events :
  examine studyUid first result = Normal LogOnly →
  no_live_call seriesUid w →
  let started := fetchData w studyUid seriesUid first false in
  let after := callback started.2 (length (invocations w)) result now in
  let failed := fetchData w studyUid seriesUid first true in
  (lock after !! seriesUid = None ∧ outcome after started.1 = Pending) ∧
  (outcome failed.2 failed.1 = Rejected LibraryError ∧
   lock (run failed.2 events) !! seriesUid = Some (length (promises w))).
Proof.
  intros Hlog Hdead started after failed. split.
  - destruct (first_callback w studyUid seriesUid first result now) as [H1 H2].
    unfold after, started. by rewrite H1, H2, Hlog.
  - split; [apply (fetchData_outcome w studyUid seriesUid first true) |].
    apply run_orphan.
    + cbn. apply lookup_insert_eq.
    + intros k i. cbn. intros Hk Hacc.
      apply lookup_app_Some in Hk as [Hk | [_ Hk]]; [by eapply Hdead |].
      apply list_lookup_singleton_Some in Hk as [_ <-]. done.
Qed.

(** *** Cache entry on completion *)

(** C5. A callback whose message carries code [0] or [2] creates the
    cache entry of the study, with expiry [now] plus the retention in
    minutes, when the study has no entry and the retention is not
    negative; it creates none when the retention is negative; and it
    leaves the store as it is when the study has an entry. Entries of
    other studies are never touched. *)
Theorem completion_caches_study w k i result now json code :
  invocations w !! k = Some i → i_accepted i = true →
  JSON_parse (Some (JStr result)) = Some json →
  prop (Some json) "code" = Normal (Some (JNum code)) →
  code = 0 ∨ code = 2 →
  let after := callback w k result now in
  let retention := keepCacheInMinutes cfg in
  (storage w !! i_study i = None → 0 ≤ retention →
     storage after !! i_study i = Some (now + retention * 60000)) ∧
  (storage w !! i_study i = None → retention < 0 →
     storage after !! i_study i = None) ∧
  (is_Some (storage w !! i_study i) → storage after = storage w) ∧
  (∀ other, other ≠ i_study i → storage after !! other = storage w !! other).
Proof.
  intros Hk Hacc Hj Hcode Hc after retention.
  assert (Hafter : storage after = cache_study cfg now (i_study i) (storage w)).
  { unfold after, Retrieve.callback. rewrite Hk, Hacc.
    unfold Retrieve.run_callback.
    by rewrite (examine_done (i_study i) (i_first i) result json code). }
  rewrite Hafter. unfold cache_study, addMinutes. fold retention.
  repeat split.
  - intros -> Hr. destruct (Z.leb_spec 0 retention); [| lia].
    apply lookup_insert_eq.
  - intros Hnone Hr. rewrite Hnone. by destruct (Z.leb_spec 0 retention); [lia |].
  - by intros [expiry ->].
  - intros other Hother. destruct (storage w !! i_study i); [done |].
    destruct (0 <=? retention); [| done]. by rewrite lookup_insert_ne.
Qed.

(** *** What a retrieve promise can be fulfilled with *)

Lemma step_fulfilled_objects w e :
  fulfilled_objects w → fulfilled_objects (step w e).
Proof.
  intros Hw p v.
  destruct (step_promises w e) as [(f & q & -> & Hf) | (added & -> & Hadded)].
  - rewrite list_lookup_alter. case_decide; [subst q | apply Hw].
    destruct (promises w !! p) as [[s|]|] eqn:Hp; cbn; intros [= H].
    destruct (Hf s v H) as [-> | ?]; [by eapply Hw | done].
  - intros H. apply lookup_app_Some in H as [H | [_ H]]; [by eapply Hw |].
    apply list_elem_of_lookup_2 in H. by destruct (Hadded _ H v).
Qed.

Lemma run_fulfilled_objects events w :
  fulfilled_objects w → fulfilled_objects (run w events).
Proof.
  revert w. induction events as [|e events IH]; intros w Hw; [done |].
  apply (IH (step w e)), step_fulfilled_objects, Hw.
Qed.

Lemma outcome_object history h v :
  outcome (run init history) h = Fulfilled v → ∃ fields, v = JObj fields.
Proof.
  assert (Hinv : fulfilled_objects (run init history)).
  { apply run_fulfilled_objects. intros p v'. cbn. by rewrite lookup_nil. }
  unfold outcome, own_state.
  destruct (promises (run init history) !! h) as [[s|p]|] eqn:Hh; [| | done].
  - intros ->. by eapply Hinv.
  - destruct (promises (run init history) !! p) as [[s|]|] eqn:Hp; try done.
    intros ->. by eapply Hinv.
Qed.

(** *** Two requests around a logged message *)

Lemma callback_other_promise w k i result now q :
  invocations w !! k = Some i → q ≠ i_promise i →
  promises (callback w k result now) !! q = promises w !! q.
Proof.
  intros Hk Hq. unfold Retrieve.callback. rewrite Hk.
  destruct (i_accepted i); [| done].
  destruct (run_callback_promises w i result now) as (f & -> & _).
  by apply list_lookup_alter_ne.
Qed.

(** C1, on the code. Two requests for one series, the second made while
    the promise of the first is still pending, can lead to two engine
    calls: a message that is only logged deletes the lock entry, so the
    second request finds none and starts a retrieve of its own. The two
    callers then hold different promises, and a completion of the second
    retrieve fulfils the second caller's promise and leaves the first
    caller's pending. The specification asks for one engine call and one
    outcome. *)
Theorem second_retrieve_while_pending w studyUid seriesUid first result now
    result' now' json :
  lock w !! seriesUid = None →
  examine studyUid first result = Normal LogOnly →
  examine studyUid first result' = Normal (ResolveDone json) →
  let r1 := waitOrFetchData w studyUid seriesUid first false in
  let w2 := callback r1.2 (length (invocations w)) result now in
  let r2 := waitOrFetchData w2 studyUid seriesUid first false in
  let w4 := callback r2.2 (S (length (invocations w))) result' now' in
  outcome w2 r1.1 = Pending ∧
  retrieves_for seriesUid r2.2 = S (S (retrieves_for seriesUid w)) ∧
  outcome w4 r1.1 = Pending ∧
  outcome w4 r2.1 = Fulfilled json.
Proof.
  intros Hfree Hlog Hdone r1 w2 r2 w4.
  set (p := length (promises w)).
  assert (Hr1 : r1 = fetchData w studyUid seriesUid first false).
  { unfold r1, Retrieve.waitOrFetchData. by rewrite Hfree. }
  destruct (first_callback w studyUid seriesUid first result now)
    as [Hlock2 Hout2].
  rewrite <- Hr1 in Hlock2, Hout2. fold w2 in Hlock2, Hout2.
  rewrite Hlog in Hout2.
  assert (Hr2 : r2 = fetchData w2 studyUid seriesUid first false).
  { unfold r2, Retrieve.waitOrFetchData. by rewrite Hlock2. }
  assert (Hinv2 : invocations w2 = invocations r1.2).
  { apply callback_invocations. }
  assert (Hlen2 : length (invocations w2) = S (length (invocations w))).
  { rewrite Hinv2, Hr1. cbn. rewrite length_app. cbn. lia. }
  assert (Hcells2 : promises w2 !! p = Some (Own Pending) ∧
                    promises w2 !! S p = Some (Adopt p)).
  { assert (Hsame : ∀ q, promises w2 !! q = promises r1.2 !! q).
    { intros q. rewrite Hr1. unfold w2. rewrite Hr1.
      unfold Retrieve.callback, Retrieve.fetchData. cbn [snd invocations].
      rewrite list_lookup_middle by done. cbn [i_accepted negb].
      unfold Retrieve.run_callback. cbn [i_study i_first]. by rewrite Hlog. }
    rewrite !Hsame, Hr1. apply fresh_cells. }
  destruct Hcells2 as [Hown2 Hadopt2].
  split; [exact Hout2 |]. split; [| split].
  - rewrite Hr2. unfold Retrieve.fetchData at 1. cbn [snd].
    rewrite retrieves_for_app. cbn [i_series].
    rewrite decide_True by done.
    unfold retrieves_for at 1. rewrite Hinv2.
    change (length (filter (λ i, i_series i = seriesUid) (invocations r1.2)))
      with (retrieves_for seriesUid r1.2).
    rewrite Hr1. unfold Retrieve.fetchData at 1. cbn [snd].
    rewrite retrieves_for_app. cbn [i_series]. rewrite decide_True by done. lia.
  - assert (Hcall : invocations r2.2 !! S (length (invocations w))
                    = Some {| i_engine := if useCget cfg then GetScu else MoveScu;
                              i_request :=
                                {| r_tags := [ {| key := "00080052"; value := "SERIES" |};
                                               {| key := "0020000D"; value := studyUid |};
                                               {| key := "0020000E"; value := seriesUid |} ];
                                   r_source := source cfg;
                                   r_target := target cfg;
                                   r_storagePath := storagePath cfg |};
                              i_study := studyUid; i_series := seriesUid;
                              i_first := first;
                              i_promise := length (promises w2);
                              i_accepted := true |}).
    { rewrite Hr2. cbn. by apply list_lookup_middle. }
    assert (Hlenp : (S p < length (promises w2))%nat).
    { by apply lookup_lt_Some in Hadopt2. }
    assert (Hcells4 : ∀ q c, promises w2 !! q = Some c →
                             promises w4 !! q = Some c).
    { intros q c Hq. unfold w4.
      rewrite (callback_other_promise _ _ _ _ _ _ Hcall)
        by (cbn; apply lookup_lt_Some in Hq; lia).
      rewrite Hr2. cbn [snd promises]. by apply lookup_app_l_Some. }
    unfold outcome, own_state. rewrite Hr1.
    change (fetchData w studyUid seriesUid first false).1 with (S p).
    by rewrite (Hcells4 _ _ Hadopt2), (Hcells4 _ _ Hown2).
  - destruct (first_callback w2 studyUid seriesUid first result' now')
      as [_ Hout4].
    rewrite <- Hr2, Hlen2 in Hout4. fold w4 in Hout4. by rewrite Hout4, Hdone.
Qed.

End RetrieveProperties.

(** ** Cache store sweep *)

Section CacheProperties.
Import Cache.

Variable rmdir_fails : string → bool.
Variables storagePath currentUid : string.
Variable currentDate : Z.

Abbreviation visit := (visit rmdir_fails storagePath currentUid currentDate).
Abbreviation evicts := (evicts rmdir_fails storagePath currentUid currentDate).
Abbreviation clearCache := (clearCache rmdir_fails storagePath currentUid currentDate).
Abbreviation directory := (directory_of storagePath).

Lemma visit_store acc item :
  store (visit acc item)
  = if evicts item then delete item.1 (store acc) else store acc.
Proof.
  unfold Cache.visit, Cache.evicts.
  destruct (item.2 <? currentDate), (String.eqb item.1 currentUid),
    (rmdir_fails _); reflexivity.
Qed.

Lemma visit_calls acc item d :
  d ∈ rmdir_calls (visit acc item) →
  d ∈ rmdir_calls acc ∨
  (item.2 < currentDate ∧ item.1 ≠ currentUid ∧ d = directory item.1).
Proof.
  unfold Cache.visit.
  destruct (Z.ltb_spec item.2 currentDate) as [Hlt|]; [| by left].
  destruct (String.eqb_spec item.1 currentUid) as [| Hne]; [by left |].
  cbn [andb negb].
  destruct (rmdir_fails _); cbn [rmdir_calls]; intros Hd;
    apply elem_of_app in Hd as [Hd | Hd]; try (by left);
    apply list_elem_of_singleton in Hd; by right.
Qed.

Lemma sweep_gone items acc k :
  store acc !! k = None → store (foldl visit acc items) !! k = None.
Proof.
  revert acc. induction items as [|item items IH]; intros acc Hk; [done |].
  cbn [foldl]. apply IH. rewrite visit_store.
  destruct (evicts item); [| done].
  apply lookup_delete_None. by right.
Qed.

Lemma sweep_kept items acc k :
  (∀ v, (k, v) ∈ items → evicts (k, v) = false) →
  store (foldl visit acc items) !! k = store acc !! k.
Proof.
  revert acc. induction items as [|[k' v'] items IH]; intros acc Hk; [done |].
  cbn [foldl]. rewrite IH.
  - rewrite visit_store. destruct (evicts (k', v')) eqn:He; [| done].
    cbn [fst]. apply lookup_delete_ne. intros ->.
    rewrite Hk in He; [done |]. apply list_elem_of_here.
  - intros v Hv. apply Hk. by apply list_elem_of_further.
Qed.

Lemma sweep_removed items acc k v :
  (k, v) ∈ items → evicts (k, v) = true →
  store (foldl visit acc items) !! k = None.
Proof.
  revert acc. induction items as [|item items IH]; intros acc Hin He.
  - by apply elem_of_nil in Hin.
  - cbn [foldl]. apply elem_of_cons in Hin as [<- | Hin]; [| by apply IH].
    apply sweep_gone. rewrite visit_store, He. apply lookup_delete_eq.
Qed.

Lemma sweep_calls items acc d :
  d ∈ rmdir_calls (foldl visit acc items) →
  d ∈ rmdir_calls acc ∨
  ∃ k v, (k, v) ∈ items ∧ v < currentDate ∧ k ≠ currentUid ∧ d = directory k.
Proof.
  revert acc. induction items as [|[k v] items IH]; intros acc Hd; [by left |].
  cbn [foldl] in Hd. apply IH in Hd as [Hd | (k' & v' & Hin & Hrest)].
  - apply visit_calls in Hd as [Hd | (Hlt & Hne & ->)]; [by left |].
    right. exists k, v. split; [apply list_elem_of_here | done].
  - right. exists k', v'. split; [by apply list_elem_of_further | done].
Qed.

(** C6. An expired entry other than the protected one is gone after the
    sweep exactly when the deletion of its directory succeeded; when the
    deletion failed the entry is still in the store with its expiry, and
    [rmdir] was called on its directory either way. *)
Theorem clearCache_removes_on_success (storage : gmap string Z) k expiry :
  storage !! k = Some expiry → expiry < currentDate → k ≠ currentUid →
  let after := clearCache storage in
  (store after !! k = None ↔ rmdir_fails (directory k) = false) ∧
  (rmdir_fails (directory k) = true → store after !! k = Some expiry).
Proof.
  intros Hk Hexpired Hne after.
  assert (Hin : (k, expiry) ∈ map_to_list storage)
    by by apply elem_of_map_to_list.
  assert (Hevicts : evicts (k, expiry) = negb (rmdir_fails (directory k))).
  { unfold Cache.evicts. cbn [fst snd].
    destruct (Z.ltb_spec expiry currentDate); [| lia].
    by destruct (String.eqb_spec k currentUid). }
  assert (Hfailed : rmdir_fails (directory k) = true →
                    store after !! k = Some expiry).
  { intros Hfail. unfold after, Cache.clearCache.
    rewrite sweep_kept; [done |].
    intros v Hv. apply elem_of_map_to_list in Hv.
    assert (v = expiry) as -> by congruence.
    by rewrite Hevicts, Hfail. }
  split; [| done]. split.
  - intros Hnone. destruct (rmdir_fails (directory k)) eqn:Hfail; [| done].
    rewrite Hfailed in Hnone; done.
  - intros Hok. unfold after, Cache.clearCache.
    apply (sweep_removed _ _ k expiry Hin). by rewrite Hevicts, Hok.
Qed.


End CacheProperties.

(** ** Metadata route *)

Section MetadataProperties.
Import Retrieve Metadata.

Variable cfg : config.
Variable JSON_parse : option json → option json.
Variable readFile : string → option file.

Abbreviation metadata := (metadata cfg readFile).

(** *** The stamping loop on its own *)

Lemma assoc_set_field_eq k v fields : assoc k (set_field k v fields) = Some v.
Proof.
  induction fields as [|[k' v'] fields IH]; cbn.
  - by rewrite String.eqb_refl.
  - destruct (String.eqb_spec k k') as [<- | Hne]; cbn.
    + by rewrite String.eqb_refl.
    + by destruct (String.eqb_spec k k').
Qed.

Lemma assoc_set_field_ne k k' v fields :
  k ≠ k' → assoc k (set_field k' v fields) = assoc k fields.
Proof.
  intros Hne. induction fields as [|[k'' v''] fields IH]; cbn.
  - by destruct (String.eqb_spec k k').
  - destruct (String.eqb_spec k' k'') as [<- | Hne']; cbn.
    + by destruct (String.eqb_spec k k').
    + by rewrite IH.
Qed.

(** The six header fields of a stamped record. *)
Lemma stamp_fields_geometry d fields :
  let stamped := stamp_fields d fields in
  assoc "00280100" stamped = Some (element (JNum <$> bitsAllocated d) "US") ∧
  assoc "00280101" stamped = Some (element (JNum <$> bitsStored d) "US") ∧
  assoc "00280102" stamped = Some (element (JNum <$> highBit d) "US") ∧
  assoc "00280010" stamped = Some (element (JNum <$> rows d) "US") ∧
  assoc "00280011" stamped = Some (element (JNum <$> cols d) "US") ∧
  assoc "00280030" stamped = Some (element (JStr <$> pixelSpacing d) "DS").
Proof.
  unfold stamp_fields. cbv zeta.
  repeat split;
    repeat (rewrite assoc_set_field_ne by discriminate);
    apply assoc_set_field_eq.
Qed.

Lemma stamp_all_objects d (records : list json) :
  Forall (λ r, ∃ fields, r = JObj fields) records →
  ∃ stamped, stamp_all d records = Normal stamped ∧
    Forall2 (λ r r', ∃ fields, r = JObj fields ∧
                               r' = JObj (stamp_fields d fields))
            records stamped.
Proof.
  induction 1 as [|r records [fields ->] _ (stamped & IH & Hall)].
  - exists []. by split.
  - exists (JObj (stamp_fields d fields) :: stamped). cbn. rewrite IH. cbn.
    split; [done |]. constructor; eauto.
Qed.

(** With an object identifier as the awaited value, the route reads the
    one file named by it and stamps every record from it; an empty result
    set and an unreadable file are answered with status 500. *)
Lemma metadata_with_identifier studyUid (records : list json) sop d :
  records ≠ [] → sop ≠ EmptyString →
  Forall (λ r, ∃ fields, r = JObj fields) records →
  readFile (path_join [storagePath cfg; studyUid; sop] +:+ ".dcm")
    = Some (Dicom d) →
  ∃ stamped,
    metadata studyUid records (Fulfilled (JStr sop)) = Sent 200 stamped ∧
    Forall2 (λ r r', ∃ fields, r = JObj fields ∧
                               r' = JObj (stamp_fields d fields))
            records stamped.
Proof.
  intros Hrecords Hsop Hobjects Hfile.
  destruct (stamp_all_objects d records Hobjects) as (stamped & Hstamp & Hall).
  exists stamped. split; [| done]. unfold Metadata.metadata.
  destruct records as [|r records]; [done |]. cbn [length Nat.eqb].
  cbn -[path_join stamp_all]. destruct (String.eqb_spec sop EmptyString); [done |].
  cbn -[path_join stamp_all]. rewrite Hfile. cbn -[stamp_all]. by rewrite Hstamp.
Qed.

Lemma metadata_empty studyUid v :
  metadata studyUid [] (Fulfilled v) = Sent 500 [].
Proof. reflexivity. Qed.

Lemma metadata_unreadable studyUid (records : list json) sop :
  sop ≠ EmptyString →
  readFile (path_join [storagePath cfg; studyUid; sop] +:+ ".dcm") = None →
  metadata studyUid records (Fulfilled (JStr sop)) = Sent 500 records.
Proof.
  intros Hsop Hfile. unfold Metadata.metadata.
  destruct records as [|r records]; [done |]. cbn [length Nat.eqb].
  cbn -[path_join]. destruct (String.eqb_spec sop EmptyString); [done |].
  cbn -[path_join]. by rewrite Hfile.
Qed.

(** *** The route behind the retrieve coordinator *)

(** C9, on the code. The value the route awaits is the outcome of a
    retrieve promise, and that is always a message object; [path.join]
    refuses it, so for a non-empty result set the handler ends with a
    [TypeError] before any file is read: no record is stamped and no
    response is sent, whatever the file system holds, where the
    specification asks for every record to be stamped from the
    representative file. *)
Theorem metadata_behind_retrieve history h v studyUid record records :
  outcome (run cfg JSON_parse init history) h = Fulfilled v →
  metadata studyUid (record :: records)
    (outcome (run cfg JSON_parse init history) h) = Failed TypeError.
Proof.
  intros Hv. rewrite Hv.
  destruct (outcome_object cfg JSON_parse history h v Hv) as [fields ->].
  reflexivity.
Qed.

End MetadataProperties.

(** ** The theorems on the sample environment *)

Section Witnesses.
Import Retrieve.

Abbreviation started := Sample.started.

Lemma single_flight_witness :
  let w2 := run Sample.cfg Sample.JSON_parse started
              [Request "7.7" "7.7.7" false false;
               Callback 1 Sample.success_text 1000] in
  let r2 := waitOrFetchData Sample.cfg w2 "1.2" "1.2.3" true false in
  let later := run Sample.cfg Sample.JSON_parse r2.2
                 [Callback 0 Sample.stored_text 2000] in
  is_Some (lock started !! "1.2.3") ∧
  retrieves_for "1.2.3" r2.2 = 1%nat ∧
  outcome later 1 = outcome later r2.1.
Proof.
  apply (single_flight Sample.cfg Sample.JSON_parse init "1.2" "1.2.3" true false
           [Request "7.7" "7.7.7" false false;
            Callback 1 Sample.success_text 1000]
           "1.2" true false [Callback 0 Sample.stored_text 2000]);
    reflexivity.
Defined.

Lemma second_retrieve_while_pending_witness :
  let r1 := waitOrFetchData Sample.cfg init "1.2" "1.2.3" false false in
  let w2 := callback Sample.cfg Sample.JSON_parse r1.2 0 Sample.stored_text 1000 in
  let r2 := waitOrFetchData Sample.cfg w2 "1.2" "1.2.3" false false in
  let w4 := callback Sample.cfg Sample.JSON_parse r2.2 1 Sample.success_text 2000 in
  outcome w2 r1.1 = Pending ∧
  retrieves_for "1.2.3" r2.2 = 2%nat ∧
  outcome w4 r1.1 = Pending ∧
  outcome w4 r2.1 = Fulfilled Sample.success_json.
Proof.
  apply (second_retrieve_while_pending Sample.cfg Sample.JSON_parse init
           "1.2" "1.2.3" false Sample.stored_text 1000 Sample.success_text 2000
           Sample.success_json);
    reflexivity.
Defined.

Lemma lock_entry_lifetime_witness :
  let w1 := (fetchData Sample.cfg init "1.2" "1.2.3" false false).2 in
  let after := callback Sample.cfg Sample.JSON_parse w1 0 Sample.stored_text 1000 in
  let failed := (fetchData Sample.cfg init "1.2" "1.2.3" false true).2 in
  (lock after !! "1.2.3" = None ∧ outcome after 1 = Pending) ∧
  (outcome failed 1 = Rejected LibraryError ∧
   lock (run Sample.cfg Sample.JSON_parse failed
           [Callback 0 Sample.success_text 5;
            Request "1.2" "1.2.3" false false]) !! "1.2.3" = Some 0%nat).
Proof.
  apply (lock_entry_lifetime Sample.cfg Sample.JSON_parse init "1.2" "1.2.3"
           false Sample.stored_text 1000
           [Callback 0 Sample.success_text 5;
            Request "1.2" "1.2.3" false false]);
    [reflexivity |].
  intros k i Hk. cbn in Hk. discriminate Hk.
Defined.

(** The early release at work: the image route asks for a series, the first
    stored-object message is only logged, and a second request for the same
    series starts a second retrieve while the first promise is pending. *)
Example early_release_starts_second_retrieve :
  let w := run Sample.cfg Sample.JSON_parse init
             [Request "1.2" "1.2.3" false false;
              Callback 0 Sample.stored_text 1000;
              Request "1.2" "1.2.3" false false] in
  retrieves_for "1.2.3" w = 2%nat ∧ outcome w 1 = Pending.
Proof. split; reflexivity. Qed.

Lemma first_image_outcome_is_message_witness :
  outcome (callback Sample.cfg Sample.JSON_parse started 0 Sample.stored_text 1000) 1
    = Fulfilled Sample.stored_json ∧
  Sample.stored_json ≠ JStr "1.2.3.4".
Proof.
  apply (first_image_outcome_is_message Sample.cfg Sample.JSON_parse init
           "1.2" "1.2.3" Sample.stored_text Sample.stored_json
           (Some (JObj [("SOPInstanceUID", JStr "1.2.3.4")])) "1.2.3.4" 1000);
    solve [reflexivity | discriminate].
Defined.

Lemma completion_caches_study_witness :
  storage (callback Sample.cfg Sample.JSON_parse started 0 Sample.success_text 1000)
    !! "1.2" = Some 3601000.
Proof.
  apply (proj1 (completion_caches_study Sample.cfg Sample.JSON_parse started 0
                  {| i_engine := MoveScu;
                     i_request :=
                       {| r_tags := [ {| key := "00080052"; value := "SERIES" |};
                                      {| key := "0020000D"; value := "1.2" |};
                                      {| key := "0020000E"; value := "1.2.3" |} ];
                          r_source := source Sample.cfg;
                          r_target := target Sample.cfg;
                          r_storagePath := storagePath Sample.cfg |};
                     i_study := "1.2"; i_series := "1.2.3"; i_first := true;
                     i_promise := 0; i_accepted := true |}
                  Sample.success_text 1000 Sample.success_json 0
                  eq_refl eq_refl eq_refl eq_refl (or_introl eq_refl)));
    [reflexivity | cbn; lia].
Defined.

Lemma clearCache_removes_on_success_witness :
  let after := Cache.clearCache Sample.rmdir_fails "data" "5.5" 100
                 Sample.expired_store in
  Cache.store after !! "1.2" = None ∧ Cache.store after !! "9.9" = Some 10.
Proof.
  split.
  - apply (proj1 (clearCache_removes_on_success Sample.rmdir_fails "data" "5.5"
                    100 Sample.expired_store "1.2" 10 eq_refl
                    ltac:(lia) ltac:(discriminate))).
    reflexivity.
  - apply (proj2 (clearCache_removes_on_success Sample.rmdir_fails "data" "5.5"
                    100 Sample.expired_store "9.9" 10 eq_refl
                    ltac:(lia) ltac:(discriminate))).
    reflexivity.
Defined.


(** An expired entry with the empty key makes the sweep hand the storage
    path itself to [rmdir], the directory that holds the protected one. *)
Example clearCache_deletes_storage_path :
  Cache.rmdir_calls (Cache.clearCache Scenario.never_fails "data" "1.2" 100
                       Scenario.rooted_store)
  = ["data"].
Proof. vm_compute. reflexivity. Qed.


Lemma metadata_behind_retrieve_witness :
  Metadata.metadata Sample.cfg Sample.readFile "1.2" [Sample.record]
    (outcome (callback Sample.cfg Sample.JSON_parse started 0
                Sample.stored_text 1000) 1)
  = Metadata.Failed TypeError.
Proof.
  apply (metadata_behind_retrieve Sample.cfg Sample.JSON_parse Sample.readFile
           [Request "1.2" "1.2.3" true false;
            Callback 0 Sample.stored_text 1000]
           1%nat Sample.stored_json "1.2" Sample.record []).
  reflexivity.
Defined.

End Witnesses.

(** * Further properties *)

(** ** Query translator *)

Section FindFurther.
Import Find Notions.

Variable cfg : config.
Variable standardDataElements : list (string * string).
Variable JSON_parse : option json → option json.

Abbreviation filter_term := (filter_term cfg standardDataElements).
Abbreviation too_short := (too_short cfg standardDataElements).

Lemma find_name_first name elements :
  match find_name name elements with
  | Some k => ∃ before after,
      elements = before ++ (k, name) :: after ∧
      ∀ k', (k', name) ∉ before
  | None => ∀ k, (k, name) ∉ elements
  end.
Proof.
  induction elements as [|[k n] rest IH]; cbn.
  - intros k. apply not_elem_of_nil.
  - destruct (String.eqb_spec n name) as [-> | Hne].
    + exists [], rest. split; [done |]. intros k'. apply not_elem_of_nil.
    + destruct (find_name name rest) as [k0|].
      * destruct IH as (before & after & -> & Hfirst).
        exists ((k, n) :: before), after. split; [done |].
        intros k' Hin. apply elem_of_cons in Hin as [[= _ Heq] | Hin];
          [by symmetry in Heq | by eapply Hfirst].
      * intros k' Hin. apply elem_of_cons in Hin as [[= _ Heq] | Hin];
          [by symmetry in Heq | by eapply IH].
Qed.

(** X1. [findDicomName] answers with the key of the first dictionary
    element that carries the name, and with [undefined] exactly when no
    element carries it. *)
Theorem findDicomName_first_match name :
  match findDicomName standardDataElements name with
  | Some k => ∃ before after,
      standardDataElements = before ++ (k, name) :: after ∧
      ∀ k', (k', name) ∉ before
  | None => ∀ k, (k, name) ∉ standardDataElements
  end.
Proof. apply find_name_first. Qed.

Lemma search_params_terms query tags :
  search_params cfg standardDataElements query tags
  = if existsb too_short query then None
    else Some (tags ++ omap filter_term query).
Proof.
  revert tags. induction query as [|[n v] rest IH]; intros tags.
  - cbn. by rewrite app_nil_r.
  - change (omap filter_term ((n, v) :: rest))
      with (match filter_term (n, v) with
            | Some y => y :: omap filter_term rest
            | None => omap filter_term rest
            end).
    cbn [Find.search_params existsb].
    set (E := existsb too_short rest) in *.
    set (O := omap filter_term rest) in *.
    unfold Notions.too_short, Notions.filter_term. cbn [fst snd].
    destruct (findDicomName standardDataElements n) as [t|]; [| apply IH].
    destruct (String.eqb_spec t "00100010") as [-> | Hne]; cbn.
    + destruct (qidoMinChars cfg >? Z.of_nat (utf16_length v)); cbn;
        [reflexivity |].
      rewrite IH. destruct E; [reflexivity |]. by rewrite <- app_assoc.
    + destruct (negb (String.eqb t EmptyString)); cbn; rewrite IH;
        destruct E; try reflexivity.
      by rewrite <- app_assoc.
Qed.

(** X2. When no patient-name parameter is too short, the request of
    [doFind] is the level term, then one empty-valued term for each include
    field and each default, then one filter term for each query parameter
    whose name resolves, in the order of the query; parameters whose name
    does not resolve contribute nothing. *)
Theorem doFind_request_terms level query defaults :
  existsb too_short query = false →
  ∃ offset,
    doFind cfg standardDataElements level query defaults
    = Invoked
        {| f_tags := {| key := "00080052"; value := level |}
                     :: map (parsed_tag standardDataElements)
                            (included query defaults)
                     ++ omap filter_term query;
           f_source := source cfg;
           f_target := target cfg |}
        offset.
Proof.
  intros Hlong. unfold Find.doFind.
  rewrite search_params_terms, Hlong. eexists. reflexivity.
Qed.

Lemma doFind_offset level query defaults request offset :
  doFind cfg standardDataElements level query defaults = Invoked request offset →
  offset = match assoc "offset" query with
           | Some o => if nonempty (Some o) then parseInt o else Some 0
           | None => Some 0
           end.
Proof.
  unfold Find.doFind. destruct (search_params _ _ _ _); [| done].
  by intros [= _ <-].
Qed.

Lemma find_promise_success offset result j c (records : list json) :
  JSON_parse (Some (JStr result)) = Some j →
  prop (Some j) "code" = Normal (Some (JNum 0)) →
  prop (Some j) "container" = Normal c →
  JSON_parse c = Some (JArr records) →
  find_promise JSON_parse offset [result] = Fulfilled (JArr (slice offset records)).
Proof.
  intros Hj Hcode Hcontainer Hc.
  unfold Find.find_promise, deliver, Find.find_callback, Find.parse.
  cbn -[prop]. rewrite Hj. cbn -[prop]. rewrite Hcode. cbn -[prop].
  rewrite Hcontainer. cbn -[prop]. rewrite Hc. reflexivity.
Qed.

(** X3. With an [offset] parameter that parses to [k >= 0], a success
    message whose container parses to an array resolves the promise with the
    records from position [k] on, in order; an offset at or beyond the
    length gives the empty list. *)
Theorem doFind_offset_skips level query defaults off k request offset
    result j c (records : list json) :
  assoc "offset" query = Some off → parseInt off = Some k → 0 ≤ k →
  doFind cfg standardDataElements level query defaults = Invoked request offset →
  JSON_parse (Some (JStr result)) = Some j →
  prop (Some j) "code" = Normal (Some (JNum 0)) →
  prop (Some j) "container" = Normal c →
  JSON_parse c = Some (JArr records) →
  find_promise JSON_parse offset [result]
  = Fulfilled (JArr (drop (Z.to_nat k) records)).
Proof.
  intros Hoff Hparse Hk Hfind Hj Hcode Hcontainer Hc.
  apply doFind_offset in Hfind. rewrite Hoff in Hfind.
  assert (offset = Some k) as ->.
  { destruct off as [|a off]; [done |]. by rewrite Hfind. }
  rewrite (find_promise_success _ result j c records) by done.
  do 2 f_equal. unfold slice, slice_start.
  destruct (Z.ltb_spec k 0); [lia |].
  destruct (Z.le_gt_cases k (Z.of_nat (length records))).
  - f_equal. lia.
  - rewrite !drop_ge; [done | lia | lia].
Qed.

(** X4. Without an [offset] parameter, with an empty one, or with one that
    [parseInt] turns into [NaN], a success message resolves the promise with
    the whole array. *)
Theorem doFind_offset_absent_or_invalid level query defaults request offset
    result j c (records : list json) :
  (assoc "offset" query = None ∨ assoc "offset" query = Some EmptyString ∨
   ∃ off, assoc "offset" query = Some off ∧ parseInt off = None) →
  doFind cfg standardDataElements level query defaults = Invoked request offset →
  JSON_parse (Some (JStr result)) = Some j →
  prop (Some j) "code" = Normal (Some (JNum 0)) →
  prop (Some j) "container" = Normal c →
  JSON_parse c = Some (JArr records) →
  find_promise JSON_parse offset [result] = Fulfilled (JArr records).
Proof.
  intros Hoff Hfind Hj Hcode Hcontainer Hc.
  apply doFind_offset in Hfind.
  rewrite (find_promise_success _ result j c records) by done.
  assert (Hzero : slice (Some 0) records = records).
  { unfold slice, slice_start. cbn.
    by replace (Z.to_nat (Z.min 0 (Z.of_nat (length records)))) with 0%nat by lia. }
  assert (offset = Some 0 ∨ offset = None) as [-> | ->];
    [| by rewrite Hzero | done].
  destruct Hoff as [H | [H | (off & H & Hnan)]]; rewrite H in Hfind.
  - by left.
  - by left.
  - destruct off as [|a off]; [by left |]. right. by rewrite Hfind.
Qed.

(** X7. A success message whose container is missing, is not JSON, or is
    JSON for anything but an array or a string, resolves the promise with
    the empty list. *)
Theorem doFind_unusable_container offset result j c :
  JSON_parse (Some (JStr result)) = Some j →
  prop (Some j) "code" = Normal (Some (JNum 0)) →
  prop (Some j) "container" = Normal c →
  match JSON_parse c with
  | Some (JArr _) | Some (JStr (String _ _)) => False
  | _ => True
  end →
  find_promise JSON_parse offset [result] = Fulfilled (JArr []).
Proof.
  intros Hj Hcode Hcontainer Hc.
  unfold Find.find_promise, deliver, Find.find_callback, Find.parse.
  cbn -[prop]. rewrite Hj. cbn -[prop]. rewrite Hcode. cbn -[prop].
  rewrite Hcontainer. cbn -[prop].
  destruct (JSON_parse c) as [[|b|n|[|a s]|items|fields]|]; cbn; try done.
  - by destruct b.
  - by destruct (n =? 0).
Qed.

End FindFurther.

(** ** Retrieve coordinator *)

Section RetrieveFurther.
Import Retrieve Notions.

Variable cfg : config.
Variable JSON_parse : option json → option json.

Abbreviation examine := (examine cfg JSON_parse).
Abbreviation callback := (callback cfg JSON_parse).
Abbreviation fetchData := (fetchData cfg).
Abbreviation waitOrFetchData := (waitOrFetchData cfg).
Abbreviation cache_study := (cache_study cfg).
Abbreviation step := (step cfg JSON_parse).
Abbreviation run := (run cfg JSON_parse).

(** *** The cache store under requests and callbacks *)

Lemma cache_study_new now studyUid (store : gmap string Z) k v :
  cache_study now studyUid store !! k = Some v →
  store !! k = Some v ∨
  (k = studyUid ∧ store !! k = None ∧ 0 ≤ keepCacheInMinutes cfg ∧
   v = now + keepCacheInMinutes cfg * 60000).
Proof.
  unfold Retrieve.cache_study, addMinutes.
  destruct (store !! studyUid) eqn:Hs; [by left |].
  destruct (Z.leb_spec 0 (keepCacheInMinutes cfg)); [| by left].
  destruct (decide (k = studyUid)) as [-> | Hne].
  - rewrite lookup_insert_eq. intros [= <-]. by right.
  - rewrite lookup_insert_ne by done. by left.
Qed.

Lemma step_storage w e :
  storage (step w e) = storage w ∨
  ∃ k result now i,
    e = Callback k result now ∧ invocations w !! k = Some i ∧
    storage (step w e) = cache_study now (i_study i) (storage w).
Proof.
  destruct e as [studyUid seriesUid first throws | k result now]; cbn [Retrieve.step].
  - left. unfold Retrieve.waitOrFetchData. by destruct (lock w !! seriesUid).
  - unfold Retrieve.callback.
    destruct (invocations w !! k) as [i|] eqn:Hk; [| by left].
    destruct (i_accepted i); [| by left].
    unfold Retrieve.run_callback.
    destruct (examine _ _ _) as [[json|json|]|err]; cbn [storage];
      try (by left).
    right. by exists k, result, now, i.
Qed.

(** X10. With a negative retention the retrieve coordinator never writes
    to the cache store. *)
Theorem negative_retention_never_caches w events :
  keepCacheInMinutes cfg < 0 →
  storage (run w events) = storage w.
Proof.
  intros Hneg. revert w. induction events as [|e events IH]; intros w; [done |].
  cbn [Retrieve.run foldl]. etrans; [apply (IH (step w e)) |].
  destruct (step_storage w e) as [-> | (j & result & now & i & _ & _ & ->)];
    [done |].
  unfold Retrieve.cache_study. destruct (storage w !! i_study i); [done |].
  by destruct (Z.leb_spec 0 (keepCacheInMinutes cfg)); [lia |].
Qed.

(** X11. Every cache entry that appears during a run was written by a
    callback of an engine call for that study, and its expiry is the clock
    of that callback plus the retention, which is then not negative. *)
Theorem cache_entries_come_from_callbacks w events k v :
  storage (run w events) !! k = Some v →
  storage w !! k = Some v ∨
  (0 ≤ keepCacheInMinutes cfg ∧
   ∃ j result now, Callback j result now ∈ events ∧
                   v = now + keepCacheInMinutes cfg * 60000).
Proof.
  revert w. induction events as [|e events IH]; intros w Hk; [by left |].
  cbn [Retrieve.run foldl] in Hk.
  apply IH in Hk as [Hk | (Hr & j & result & now & Hin & ->)].
  - destruct (step_storage w e) as [He | (j & result & now & i & -> & _ & He)];
      rewrite He in Hk; [by left |].
    apply cache_study_new in Hk as [Hk | (_ & _ & Hr & ->)]; [by left |].
    right. split; [done |]. exists j, result, now. split; [| done].
    apply list_elem_of_here.
  - right. split; [done |]. exists j, result, now. split; [| done].
    by apply list_elem_of_further.
Qed.

(** *** What a callback decides *)

Lemma is_num_inv code n : is_num code n = true → code = Some (JNum n).
Proof.
  destruct code as [[|b|m|s|items|fields]|]; cbn; try done.
  intros H. apply Z.eqb_eq in H. by subst.
Qed.

Lemma strings_of_inv a b sop l :
  strings_of [Some (JStr a); Some (JStr b); sop] = Normal l →
  ∃ s, sop = Some (JStr s).
Proof. destruct sop as [[|x|n|s|items|fields]|]; cbn; try done. eauto. Qed.

Lemma examine_inv studyUid first result v :
  examine studyUid first result = Normal v →
  ∃ json code,
    JSON_parse (Some (JStr result)) = Some json ∧
    prop (Some json) "code" = Normal code ∧
    match v with
    | ResolveDone json' =>
        json' = json ∧ (code = Some (JNum 0) ∨ code = Some (JNum 2))
    | ResolveStored json' =>
        json' = json ∧ first = true ∧ code = Some (JNum 1) ∧
        ∃ container sop,
          prop (Some json) "container" = Normal container ∧
          prop container "SOPInstanceUID" = Normal (Some (JStr sop)) ∧
          sop ≠ EmptyString
    | LogOnly => is_num code 0 = false ∧ is_num code 2 = false
    end.
Proof.
  unfold Retrieve.examine, Retrieve.parse.
  destruct (JSON_parse (Some (JStr result))) as [json|] eqn:Hj; [| done].
  cbn -[prop is_num path_join_js].
  destruct (prop (Some json) "code") as [code|] eqn:Hcode; [| done].
  cbn -[prop is_num path_join_js].
  intros H. exists json, code. split; [done |]. split; [done |].
  assert (Hotherwise :
    (if is_num code 0 || is_num code 2
     then Normal (ResolveDone json) else Normal LogOnly) = Normal v →
    match v with
    | ResolveDone json' =>
        json' = json ∧ (code = Some (JNum 0) ∨ code = Some (JNum 2))
    | ResolveStored _ => False
    | LogOnly => is_num code 0 = false ∧ is_num code 2 = false
    end).
  { destruct (is_num code 0) eqn:H0; [| destruct (is_num code 2) eqn:H2];
      cbn; intros [= <-]; try done.
    - split; [done |]. left. by apply is_num_inv.
    - split; [done |]. right. by apply is_num_inv. }
  destruct first; cbn -[prop is_num path_join_js] in H.
  - destruct (is_num code 1) eqn:H1.
    + apply is_num_inv in H1 as ->.
      destruct (prop (Some json) "container") as [container|] eqn:Hc; [| done].
      cbn -[prop path_join_js] in H.
      destruct (prop container "SOPInstanceUID") as [sop|] eqn:Hsop; [| done].
      cbn -[prop path_join_js] in H.
      destruct (truthy sop) eqn:Htruthy.
      * unfold path_join_js in H.
        destruct (strings_of _) as [l|] eqn:Hl; [| done].
        apply strings_of_inv in Hl as [s ->]. cbn in H. injection H as <-.
        do 3 (split; [done |]). exists container, s.
        do 2 (split; [done |]). intros ->. done.
      * cbn in H. by injection H as <-.
    + apply Hotherwise in H. by destruct v.
  - apply Hotherwise in H. by destruct v.
Qed.

(** X12. A callback fulfils the promise of its retrieve through the second
    branch exactly when the message parses and carries code [0] or [2], and
    through the first branch exactly when the caller waits for the first
    image and the message carries code [1] and a non-empty string
    [SOPInstanceUID]; in both cases with the parsed message. *)
Theorem resolution_policy studyUid first result json :
  (examine studyUid first result = Normal (ResolveDone json) ↔
     JSON_parse (Some (JStr result)) = Some json ∧
     (prop (Some json) "code" = Normal (Some (JNum 0)) ∨
      prop (Some json) "code" = Normal (Some (JNum 2)))) ∧
  (examine studyUid first result = Normal (ResolveStored json) ↔
     first = true ∧
     JSON_parse (Some (JStr result)) = Some json ∧
     prop (Some json) "code" = Normal (Some (JNum 1)) ∧
     ∃ container sop,
       prop (Some json) "container" = Normal container ∧
       prop container "SOPInstanceUID" = Normal (Some (JStr sop)) ∧
       sop ≠ EmptyString).
Proof.
  split; split.
  - intros H. apply examine_inv in H
      as (json' & code & Hj & Hcode & <- & [-> | ->]); eauto.
  - intros (Hj & [Hcode | Hcode]).
    + by apply (examine_done cfg JSON_parse studyUid first result json 0);
        [| | left].
    + by apply (examine_done cfg JSON_parse studyUid first result json 2);
        [| | right].
  - intros H. apply examine_inv in H
      as (json' & code & Hj & Hcode & <- & -> & -> & container & sop & Hrest).
    repeat split; eauto.
  - intros (-> & Hj & Hcode & container & sop & Hc & Hsop & Hne).
    by apply (examine_stored cfg JSON_parse studyUid result json container sop).
Qed.

(** X13. A callback whose text is not JSON rejects the promise of its
    retrieve with a [SyntaxError], one whose text is JSON [null] with a
    [TypeError]; the joined callers see the same rejection and the series
    leaves the lock map. *)
Theorem faulty_message_rejects w studyUid seriesUid first result now :
  let started := fetchData w studyUid seriesUid first false in
  let after := callback started.2 (length (invocations w)) result now in
  (JSON_parse (Some (JStr result)) = None →
     outcome after started.1 = Rejected SyntaxError) ∧
  (JSON_parse (Some (JStr result)) = Some JNull →
     outcome after started.1 = Rejected TypeError) ∧
  lock after !! seriesUid = None.
Proof.
  intros started after.
  destruct (first_callback cfg JSON_parse w studyUid seriesUid first result now)
    as [Hlock Hout].
  fold started in Hlock, Hout. fold after in Hlock, Hout.
  split; [| split; [| done]]; intros Hj; rewrite Hout;
    unfold Retrieve.examine, Retrieve.parse; by rewrite Hj.
Qed.

(** X14. A message that parses to something other than [null] and carries
    neither code [0] nor code [2] is only logged when the caller does not
    wait for the first image: no promise changes and the cache store is
    untouched, yet the series leaves the lock map. *)
Theorem other_status_only_logged w k i result now json code :
  invocations w !! k = Some i → i_accepted i = true → i_first i = false →
  JSON_parse (Some (JStr result)) = Some json →
  prop (Some json) "code" = Normal code →
  is_num code 0 = false → is_num code 2 = false →
  let after := callback w k result now in
  promises after = promises w ∧ storage after = storage w ∧
  lock after = delete (i_series i) (lock w).
Proof.
  intros Hk Hacc Hfirst Hj Hcode H0 H2 after.
  unfold after, Retrieve.callback. rewrite Hk, Hacc.
  unfold Retrieve.run_callback, Retrieve.examine, Retrieve.parse.
  rewrite Hfirst, Hj. cbn -[prop is_num]. rewrite Hcode. cbn -[prop is_num].
  rewrite H0, H2. done.
Qed.

(** X15. When the caller waits for the first image and a message with code
    [1] carries a [SOPInstanceUID] that is truthy but not a string, the
    [path.join] of the log line throws and the promise is rejected with a
    [TypeError]. *)
Theorem unusable_identifier_rejects w studyUid seriesUid result json container
    sop now :
  JSON_parse (Some (JStr result)) = Some json →
  prop (Some json) "code" = Normal (Some (JNum 1)) →
  prop (Some json) "container" = Normal container →
  prop container "SOPInstanceUID" = Normal sop →
  truthy sop = true → (∀ s, sop ≠ Some (JStr s)) →
  let started := fetchData w studyUid seriesUid true false in
  let after := callback started.2 (length (invocations w)) result now in
  outcome after started.1 = Rejected TypeError.
Proof.
  intros Hj Hcode Hcontainer Hsop Htruthy Hnot started after.
  destruct (first_callback cfg JSON_parse w studyUid seriesUid true result now)
    as [_ Hout].
  unfold after, started. rewrite Hout.
  unfold Retrieve.examine, Retrieve.parse.
  rewrite Hj. cbn -[prop]. rewrite Hcode. cbn -[prop].
  rewrite Hcontainer. cbn -[prop]. rewrite Hsop. cbn. rewrite Htruthy.
  destruct sop as [[|b|n|s|items|fields]|]; cbn; try done.
  by destruct (Hnot s).
Qed.

(** *** Engine calls *)

Lemma step_invocations w e :
  ∃ added, invocations (step w e) = invocations w ++ added ∧
           (length added ≤ if is_request e then 1 else 0)%nat.
Proof.
  destruct e as [studyUid seriesUid first throws | k result now];
    cbn [Retrieve.step is_request].
  - unfold Retrieve.waitOrFetchData. destruct (lock w !! seriesUid).
    + exists []. cbn. split; [by rewrite app_nil_r | lia].
    + cbn. eexists. split; [reflexivity | cbn; lia].
  - rewrite callback_invocations. exists []. split; [by rewrite app_nil_r | done].
Qed.

(** X16. The log of engine calls only grows, and by at most one call for
    each request: a callback never calls the engine. *)
Theorem engine_calls_bounded_by_requests w events :
  ∃ added,
    invocations (run w events) = invocations w ++ added ∧
    (length added ≤ length (List.filter is_request events))%nat.
Proof.
  revert w. induction events as [|e events IH]; intros w.
  - exists []. split; [by rewrite app_nil_r | done].
  - cbn [Retrieve.run foldl List.filter].
    destruct (IH (step w e)) as (added' & Heq & Hlen).
    destruct (step_invocations w e) as (added & Hstep & Hone).
    exists (added ++ added'). split.
    + etrans; [exact Heq |]. by rewrite Hstep, <- app_assoc.
    + rewrite length_app. destruct (is_request e); cbn [length]; lia.
Qed.

(** *** Handles in the lock map *)

Lemma init_coherent : coherent init.
Proof. split; intros *; cbn; by rewrite ?lookup_empty, ?lookup_nil. Qed.

Lemma request_coherent w studyUid seriesUid first throws :
  coherent w → coherent (waitOrFetchData w studyUid seriesUid first throws).2.
Proof.
  intros [Hlock Halloc Hown]. unfold Retrieve.waitOrFetchData.
  destruct (lock w !! seriesUid) eqn:Hfree; [done |].
  unfold Retrieve.fetchData. cbn [snd].
  set (state := if throws then Rejected LibraryError else Pending).
  destruct (fresh_cells (promises w) state) as [Hfresh _].
  assert (Hold : ∀ s p, lock w !! s = Some p → (p < length (promises w))%nat).
  { intros s p Hs. destruct (Hlock s p Hs) as [H | H];
      by apply lookup_lt_Some in H. }
  split; cbn [lock promises invocations].
  - intros s p. destruct (decide (seriesUid = s)) as [<- | Hne].
    + rewrite lookup_insert_eq. intros [= <-]. rewrite Hfresh.
      subst state. destruct throws; eauto.
    + rewrite lookup_insert_ne by done. intros Hs.
      destruct (Hlock s p Hs) as [H | H]; [left | right];
        by apply lookup_app_l_Some.
  - intros k i Hk. rewrite length_app. cbn [length].
    apply lookup_app_Some in Hk as [Hk | [_ Hk]].
    + apply Halloc in Hk. lia.
    + apply list_lookup_singleton_Some in Hk as [_ <-]. cbn. lia.
  - intros k i s Hk. apply lookup_app_Some in Hk as [Hk | [_ Hk]].
    + destruct (decide (seriesUid = s)) as [<- | Hne].
      * rewrite lookup_insert_eq. intros [= Heq]. apply Halloc in Hk. lia.
      * rewrite lookup_insert_ne by done. by apply (Hown k i s).
    + apply list_lookup_singleton_Some in Hk as [_ <-]. cbn [i_promise i_series].
      destruct (decide (seriesUid = s)) as [<- | Hne]; [done |].
      rewrite lookup_insert_ne by done. intros Hs. apply Hold in Hs. lia.
Qed.

Lemma callback_coherent w k result now :
  coherent w → coherent (callback w k result now).
Proof.
  intros Hw. unfold Retrieve.callback.
  destruct (invocations w !! k) as [i|] eqn:Hk; [| done].
  destruct (i_accepted i); [| done].
  destruct Hw as [Hlock Halloc Hown].
  destruct (run_callback_promises cfg JSON_parse w i result now) as (f & Hf & _).
  split; rewrite ?run_callback_lock, ?run_callback_invocations, ?Hf.
  - intros s p Hs. apply lookup_delete_Some in Hs as [Hne Hs].
    rewrite list_lookup_alter_ne; [by apply (Hlock s p) |].
    intros Heq. apply Hne, (Hown k i s); [done | by rewrite Heq].
  - intros j i' Hj. rewrite length_alter. by eapply Halloc.
  - intros j i' s Hj Hs. apply lookup_delete_Some in Hs as [_ Hs].
    by apply (Hown j i' s).
Qed.

Lemma run_coherent events w : coherent w → coherent (run w events).
Proof.
  revert w. induction events as [|e events IH]; intros w Hw; [done |].
  cbn [Retrieve.run foldl]. apply IH.
  destruct e as [studyUid seriesUid first throws | k result now]; cbn [Retrieve.step].
  - by apply request_coherent.
  - by apply callback_coherent.
Qed.

(** X17. In every world reached from the start by requests and callbacks, a
    handle found in the lock map has not been settled by a callback: it is
    pending, or it was rejected because the engine call threw. A caller
    that joins never receives a retrieve that is already fulfilled. *)
Theorem joined_handle_is_unsettled history seriesUid p :
  lock (run init history) !! seriesUid = Some p →
  outcome (run init history) p = Pending ∨
  outcome (run init history) p = Rejected LibraryError.
Proof.
  intros Hp.
  destruct (lock_unsettled _ (run_coherent history init init_coherent)
              seriesUid p Hp) as [H | H];
    unfold outcome; rewrite H; eauto.
Qed.

End RetrieveFurther.

(** ** Cache store sweep *)

Section CacheFurther.
Import Cache.

Variable rmdir_fails : string → bool.
Variables storagePath currentUid : string.
Variable currentDate : Z.

Abbreviation visit := (visit rmdir_fails storagePath currentUid currentDate).
Abbreviation evicts := (evicts rmdir_fails storagePath currentUid currentDate).
Abbreviation clearCache := (clearCache rmdir_fails storagePath currentUid currentDate).
Abbreviation directory := (directory_of storagePath).

Lemma sweep_entry (storage : gmap string Z) k :
  store (clearCache storage) !! k
  = match storage !! k with
    | Some v => if evicts (k, v) then None else Some v
    | None => None
    end.
Proof.
  unfold Cache.clearCache.
  destruct (storage !! k) as [v|] eqn:Hk.
  - destruct (evicts (k, v)) eqn:He.
    + apply (sweep_removed rmdir_fails storagePath currentUid currentDate _ _ k v);
        [by apply elem_of_map_to_list | done].
    + rewrite sweep_kept; [done |].
      intros v' Hv'. apply elem_of_map_to_list in Hv'.
      by assert (v' = v) as -> by congruence.
  - rewrite sweep_kept; [done |].
    intros v' Hv'. apply elem_of_map_to_list in Hv'. congruence.
Qed.

(** X18. Entry by entry, the store after a sweep is the store before it
    without the entries that are expired, are not the protected one, and
    whose directory was deleted without an error: the sweep adds nothing
    and changes no expiry. *)
Theorem clearCache_entrywise (storage : gmap string Z) k :
  store (clearCache storage) !! k
  = match storage !! k with
    | Some v =>
        if (v <? currentDate) && negb (String.eqb k currentUid)
           && negb (rmdir_fails (directory k))
        then None else Some v
    | None => None
    end.
Proof. apply sweep_entry. Qed.

(** X19. An entry whose expiry is the current time or later is kept, and
    the sweep calls [rmdir] for expired entries with other keys only: an
    expiry has to lie strictly in the past to make an entry eligible. *)
Theorem clearCache_keeps_unexpired (storage : gmap string Z) k v :
  storage !! k = Some v → currentDate ≤ v →
  store (clearCache storage) !! k = Some v ∧
  ∀ d, d ∈ rmdir_calls (clearCache storage) →
       ∃ k' v', k' ≠ k ∧ storage !! k' = Some v' ∧ v' < currentDate ∧
                k' ≠ currentUid ∧ d = directory k'.
Proof.
  intros Hk Hfresh. split.
  - rewrite sweep_entry, Hk. unfold Cache.evicts. cbn [fst snd].
    by destruct (Z.ltb_spec v currentDate); [lia |].
  - intros d Hd. unfold Cache.clearCache in Hd.
    apply sweep_calls in Hd as [Hd | (k' & v' & Hin & Hlt & Hne & Heq)].
    + by apply elem_of_nil in Hd.
    + apply elem_of_map_to_list in Hin. exists k', v'.
      split; [| done]. intros ->. assert (v' = v) by congruence. lia.
Qed.

Abbreviation due := (Notions.due currentUid currentDate).

Lemma sweep_calls_exact items acc :
  rmdir_calls (foldl visit acc items)
  = rmdir_calls acc ++ ((λ item, directory item.1) <$> filter due items).
Proof.
  revert acc. induction items as [|item items IH]; intros acc.
  - cbn. by rewrite app_nil_r.
  - cbn [foldl]. rewrite IH, filter_cons. unfold Cache.visit, Notions.due.
    destruct (Z.ltb_spec item.2 currentDate) as [Hlt | Hge];
      destruct (String.eqb_spec item.1 currentUid) as [Heq | Hne]; cbn [andb negb].
    + rewrite decide_False by (intros [_ H]; done). done.
    + rewrite decide_True by done.
      destruct (rmdir_fails _); cbn [rmdir_calls]; by rewrite <- app_assoc.
    + rewrite decide_False by (intros [H _]; lia). done.
    + rewrite decide_False by (intros [H _]; lia). done.
Qed.

(** X20. [rmdir] is called once for each entry that is expired and is not
    the protected one, on the joined path of its key, whether or not the
    deletion then succeeds, and for no other entry. *)
Theorem clearCache_rmdir_calls (storage : gmap string Z) :
  ∃ items : list (string * Z),
    NoDup items.*1 ∧
    (∀ k v, (k, v) ∈ items ↔
            storage !! k = Some v ∧ v < currentDate ∧ k ≠ currentUid) ∧
    rmdir_calls (clearCache storage) = (λ item, directory item.1) <$> items.
Proof.
  exists (filter due (map_to_list storage)). split; [| split].
  - apply (sublist_NoDup _ (map_to_list storage).*1);
      [apply NoDup_fst_map_to_list |].
    apply fmap_sublist, sublist_filter.
  - intros k v. rewrite list_elem_of_filter, elem_of_map_to_list.
    unfold Notions.due. cbn [fst snd]. tauto.
  - unfold Cache.clearCache. by rewrite sweep_calls_exact.
Qed.

(** X21. When no deletion fails, every entry left after the sweep is
    unexpired or is the protected one. *)
Theorem clearCache_leaves_fresh_or_protected (storage : gmap string Z) k v :
  (∀ d, rmdir_fails d = false) →
  store (clearCache storage) !! k = Some v →
  storage !! k = Some v ∧ (currentDate ≤ v ∨ k = currentUid).
Proof.
  intros Hok. rewrite sweep_entry.
  destruct (storage !! k) as [v'|]; [| done].
  unfold Cache.evicts. cbn [fst snd]. rewrite Hok.
  destruct (Z.ltb_spec v' currentDate);
    destruct (String.eqb_spec k currentUid); cbn; intros [= <-]; auto.
Qed.

(** X22. A second sweep at the same time, with the same protected
    identifier and the same outcome of each deletion, removes nothing
    more. *)
Theorem clearCache_twice (storage : gmap string Z) :
  store (clearCache (store (clearCache storage))) = store (clearCache storage).
Proof.
  apply map_eq. intros k. rewrite !sweep_entry.
  destruct (storage !! k) as [v|]; [| done].
  by destruct (evicts (k, v)) eqn:He; [| rewrite He].
Qed.

End CacheFurther.

(** ** The coordinator, the sweep and the routes together *)

Section RoutesFurther.
Import Find Retrieve Cache Routes Notions.

Variable cfg : config.
Variable standardDataElements : list (string * string).
Variable JSON_parse : option json → option json.

Abbreviation callback := (callback cfg JSON_parse).
Abbreviation findDicomName := (findDicomName standardDataElements).

Lemma completion_storage w k i result now json code :
  invocations w !! k = Some i → i_accepted i = true →
  JSON_parse (Some (JStr result)) = Some json →
  prop (Some json) "code" = Normal (Some (JNum code)) →
  code = 0 ∨ code = 2 →
  storage (callback w k result now)
  = cache_study cfg now (i_study i) (storage w).
Proof.
  intros Hk Hacc Hj Hcode Hc. unfold Retrieve.callback. rewrite Hk, Hacc.
  unfold Retrieve.run_callback.
  by rewrite (examine_done cfg JSON_parse (i_study i) (i_first i) result json code).
Qed.

Lemma cache_study_fresh now studyUid (store : gmap string Z) :
  store !! studyUid = None → 0 ≤ keepCacheInMinutes cfg →
  cache_study cfg now studyUid store !! studyUid
  = Some (now + keepCacheInMinutes cfg * 60000).
Proof.
  intros Hnone Hr. unfold cache_study, addMinutes. rewrite Hnone.
  destruct (Z.leb_spec 0 (keepCacheInMinutes cfg)); [| lia].
  apply lookup_insert_eq.
Qed.

(** X23. The entry written when a retrieve completes at clock [now] with
    retention [R >= 0] survives every sweep up to and including the instant
    [now + R] minutes; a later sweep that does not protect the study and
    whose deletion succeeds removes it. *)
Theorem cached_study_lives_until_expiry w k i result now json code
    rmdir_fails protected t :
  invocations w !! k = Some i → i_accepted i = true →
  JSON_parse (Some (JStr result)) = Some json →
  prop (Some json) "code" = Normal (Some (JNum code)) →
  code = 0 ∨ code = 2 →
  storage w !! i_study i = None → 0 ≤ keepCacheInMinutes cfg →
  let expiry := now + keepCacheInMinutes cfg * 60000 in
  let swept := clearCache rmdir_fails (storagePath cfg) protected t
                 (storage (callback w k result now)) in
  (t ≤ expiry → store swept !! i_study i = Some expiry) ∧
  (expiry < t → i_study i ≠ protected →
   rmdir_fails (directory_of (storagePath cfg) (i_study i)) = false →
   store swept !! i_study i = None).
Proof.
  intros Hk Hacc Hj Hcode Hc Hnone Hr expiry swept.
  assert (Hentry : storage (callback w k result now) !! i_study i = Some expiry).
  { rewrite (completion_storage w k i result now json code) by done.
    by apply cache_study_fresh. }
  unfold swept. rewrite sweep_entry, Hentry. unfold Cache.evicts. cbn [fst snd].
  split.
  - intros Ht. by destruct (Z.ltb_spec expiry t); [lia |].
  - intros Ht Hne Hok. rewrite Hok.
    destruct (Z.ltb_spec expiry t); [| lia].
    by destruct (String.eqb_spec (i_study i) protected).
Qed.

(** *** Query routes *)

Lemma set_param_elem k v query : (k, v) ∈ set_param k v query.
Proof.
  induction query as [|[k' v'] rest IH]; cbn.
  - apply list_elem_of_here.
  - destruct (String.eqb_spec k k') as [<- | Hne].
    + apply list_elem_of_here.
    + by apply list_elem_of_further.
Qed.

Lemma set_param_value k v v' query :
  NoDup query.*1 → (k, v') ∈ set_param k v query → v' = v.
Proof.
  induction query as [|[k' v''] rest IH]; cbn.
  - intros _ Hin. apply list_elem_of_singleton in Hin. congruence.
  - intros Hnd. apply NoDup_cons in Hnd as [Hfresh Hnd].
    destruct (String.eqb_spec k k') as [<- | Hne]; intros Hin;
      apply elem_of_cons in Hin as [Heq | Hin]; try congruence.
    + destruct Hfresh. by apply (list_elem_of_fmap_2' fst _ (k, v')).
    + by apply IH.
Qed.

Lemma doFind_invoked_terms level query defaults request offset :
  doFind cfg standardDataElements level query defaults = Invoked request offset →
  f_tags request
  = {| key := "00080052"; value := level |}
    :: map (parsed_tag standardDataElements) (included query defaults)
    ++ omap (filter_term cfg standardDataElements) query.
Proof.
  unfold Find.doFind. rewrite search_params_terms.
  destruct (existsb _ query); [done |]. by intros [= <- _].
Qed.

Lemma set_param_other k v k' v' query :
  k' ≠ k → (k', v') ∈ set_param k v query ↔ (k', v') ∈ query.
Proof.
  intros Hne. induction query as [|[k'' v''] rest IH]; cbn.
  - split; intros Hin; [| by apply elem_of_nil in Hin].
    apply list_elem_of_singleton in Hin. congruence.
  - destruct (String.eqb_spec k k'') as [<- | Hne'].
    + rewrite !elem_of_cons. split; intros [Heq | Hin]; auto; congruence.
    + rewrite !elem_of_cons, IH. done.
Qed.

Lemma set_param_keys k v query :
  (set_param k v query).*1
  = if decide (k ∈ query.*1) then query.*1 else query.*1 ++ [k].
Proof.
  induction query as [|[k' v'] rest IH]; cbn.
  - rewrite decide_False; [done | apply not_elem_of_nil].
  - destruct (String.eqb_spec k k') as [<- | Hne]; cbn.
    + rewrite decide_True; [done | apply list_elem_of_here].
    + rewrite IH. destruct (decide (k ∈ rest.*1)) as [Hin | Hout].
      * rewrite decide_True; [done | by apply list_elem_of_further].
      * rewrite decide_False; [done |].
        intros Hin. apply elem_of_cons in Hin as [? | ?]; done.
Qed.

Lemma set_param_NoDup k v query :
  NoDup query.*1 → NoDup (set_param k v query).*1.
Proof.
  intros Hnd. rewrite set_param_keys. case_decide; [done |].
  apply NoDup_app. split; [done |]. split; [| apply NoDup_singleton].
  intros x Hx Hk. apply list_elem_of_singleton in Hk. by subst.
Qed.

Lemma path_filter_terms level query defaults request offset name tagKey uid t :
  findDicomName name = Some tagKey → tagKey ≠ EmptyString →
  tagKey ≠ "00100010" → tagKey ≠ "00080052" →
  (∀ n, findDicomName n = Some tagKey → n = name) →
  (name, uid) ∈ query → (∀ v, (name, v) ∈ query → v = uid) →
  doFind cfg standardDataElements level query defaults
  = Invoked request offset →
  {| key := tagKey; value := uid |} ∈ f_tags request ∧
  (t ∈ f_tags request → key t = tagKey →
   value t = EmptyString ∨ value t = uid).
Proof.
  intros Hname Hne Hnotpn Hnotlevel Honly Helem Hvalue Hfind.
  apply doFind_invoked_terms in Hfind. rewrite Hfind.
  assert (Hterm : filter_term cfg standardDataElements (name, uid)
                  = Some {| key := tagKey; value := uid |}).
  { unfold Notions.filter_term. cbn [fst snd]. rewrite Hname. cbn.
    destruct (String.eqb_spec tagKey EmptyString); [done |].
    by destruct (String.eqb_spec tagKey "00100010"). }
  split.
  - apply elem_of_cons. right. apply elem_of_app. right.
    apply list_elem_of_omap. by exists (name, uid).
  - intros Hin Hkey. apply elem_of_cons in Hin as [-> | Hin].
    { cbn in Hkey. congruence. }
    apply elem_of_app in Hin as [Hin | Hin].
    + apply list_elem_of_fmap in Hin as (element & -> & _). by left.
    + apply list_elem_of_omap in Hin as ([n v] & Hin & Hn).
      unfold Notions.filter_term in Hn. cbn [fst snd] in Hn.
      destruct (Find.findDicomName standardDataElements n) as [k'|] eqn:Hk';
        [| done].
      destruct (nonempty (Some k')); [| done].
      injection Hn as <-. cbn in Hkey. subst k'.
      apply Honly in Hk' as ->. right. cbn.
      destruct (String.eqb_spec tagKey "00100010"); [done |]. cbn.
      by apply Hvalue.
Qed.

(** X24. The series route always filters on the study of its path: the
    request carries the term for [StudyInstanceUID] with the identifier of
    the path, and a [StudyInstanceUID] parameter supplied in the query
    string is overwritten, so that no term of the request names another
    study. *)
Theorem series_route_filters_on_path_study studyInstanceUid query request
    offset t :
  findDicomName "StudyInstanceUID" = Some "0020000D" →
  (∀ n, findDicomName n = Some "0020000D" → n = "StudyInstanceUID") →
  NoDup query.*1 →
  series cfg standardDataElements studyInstanceUid query
  = Invoked request offset →
  {| key := "0020000D"; value := studyInstanceUid |} ∈ f_tags request ∧
  (t ∈ f_tags request → key t = "0020000D" →
   value t = EmptyString ∨ value t = studyInstanceUid).
Proof.
  intros Hname Honly Hnd Hfind.
  apply (path_filter_terms "SERIES"
           (set_param "StudyInstanceUID" studyInstanceUid query) series_tags
           request offset "StudyInstanceUID" "0020000D" studyInstanceUid t);
    try done.
  - apply set_param_elem.
  - intros v. by apply set_param_value.
Qed.

(** X28. The query of the metadata route filters on the study and on the
    series of its path, and on no other study or series, whatever the query
    string supplies under these two names. *)
Theorem metadata_route_filters_on_path studyInstanceUid seriesInstanceUid
    query request offset t :
  findDicomName "StudyInstanceUID" = Some "0020000D" →
  findDicomName "SeriesInstanceUID" = Some "0020000E" →
  (∀ n, findDicomName n = Some "0020000D" → n = "StudyInstanceUID") →
  (∀ n, findDicomName n = Some "0020000E" → n = "SeriesInstanceUID") →
  NoDup query.*1 →
  instances cfg standardDataElements studyInstanceUid seriesInstanceUid query
  = Invoked request offset →
  {| key := "0020000D"; value := studyInstanceUid |} ∈ f_tags request ∧
  {| key := "0020000E"; value := seriesInstanceUid |} ∈ f_tags request ∧
  (t ∈ f_tags request →
   (key t = "0020000D" → value t = EmptyString ∨ value t = studyInstanceUid) ∧
   (key t = "0020000E" → value t = EmptyString ∨ value t = seriesInstanceUid)).
Proof.
  intros Hstudy Hseries Honly Honly' Hnd Hfind. unfold Routes.instances in Hfind.
  set (q1 := set_param "StudyInstanceUID" studyInstanceUid query) in *.
  set (q2 := set_param "SeriesInstanceUID" seriesInstanceUid q1) in *.
  destruct (path_filter_terms "IMAGE" q2 metadata_tags request offset
              "StudyInstanceUID" "0020000D" studyInstanceUid t)
    as [Hin1 Hval1]; try done.
  { apply set_param_other; [done | apply set_param_elem]. }
  { intros v Hv. apply set_param_other in Hv; [| done].
    by apply (set_param_value "StudyInstanceUID" studyInstanceUid v query). }
  destruct (path_filter_terms "IMAGE" q2 metadata_tags request offset
              "SeriesInstanceUID" "0020000E" seriesInstanceUid t)
    as [Hin2 Hval2]; try done.
  { apply set_param_elem. }
  { intros v. apply set_param_value. by apply set_param_NoDup. }
  auto.
Qed.

(** *** Image route *)

(** X25. A request for the bytes of an image whose file is not there, for
    a series without a handle and a study without a cache entry, makes one
    engine call and waits. Once a callback reports code [0] or [2] the
    handler goes on: it sends the file if it can now be read, and the sweep
    that follows leaves the entry just written for the study, with expiry
    [now] plus the retention, in the store whatever the time of the
    sweep. *)
Theorem wadouri_fetches_then_serves fileExists readFile rmdir_fails w
    studyUid seriesUid objectUid result now t json code data :
  let pathname := path_join [storagePath cfg; studyUid; objectUid] +:+ ".dcm" in
  fileExists pathname = false →
  lock w !! seriesUid = None →
  storage w !! studyUid = None → 0 ≤ keepCacheInMinutes cfg →
  JSON_parse (Some (JStr result)) = Some json →
  prop (Some json) "code" = Normal (Some (JNum code)) →
  code = 0 ∨ code = 2 →
  readFile pathname = Some data →
  ∃ handle w1 store,
    wadouri cfg fileExists w (Some studyUid) seriesUid (Some objectUid) false
    = Awaiting pathname handle w1 ∧
    retrieves_for seriesUid w1 = S (retrieves_for seriesUid w) ∧
    outcome w1 handle = Pending ∧
    wadouri_resume cfg readFile rmdir_fails t pathname studyUid handle
      (callback w1 (length (invocations w)) result now)
    = (ImageSent data, store) ∧
    store !! studyUid = Some (now + keepCacheInMinutes cfg * 60000).
Proof.
  intros pathname Hmissing Hfree Hnone Hr Hj Hcode Hc Hread.
  set (started := fetchData cfg w studyUid seriesUid false false).
  set (after := callback started.2 (length (invocations w)) result now).
  exists started.1, started.2,
    (store (clearCache rmdir_fails (storagePath cfg) studyUid t (storage after))).
  assert (Hout : outcome after started.1 = Fulfilled json).
  { destruct (first_callback cfg JSON_parse w studyUid seriesUid false result now)
      as [_ H].
    unfold after, started. rewrite H.
    by rewrite (examine_done cfg JSON_parse studyUid false result json code). }
  assert (Hentry : storage after !! studyUid
                   = Some (now + keepCacheInMinutes cfg * 60000)).
  { unfold after.
    rewrite (completion_storage started.2 (length (invocations w))
               {| i_engine := if useCget cfg then GetScu else MoveScu;
                  i_request :=
                    {| r_tags := [ {| key := "00080052"; value := "SERIES" |};
                                   {| key := "0020000D"; value := studyUid |};
                                   {| key := "0020000E"; value := seriesUid |} ];
                       r_source := source cfg;
                       r_target := target cfg;
                       r_storagePath := storagePath cfg |};
                  i_study := studyUid; i_series := seriesUid; i_first := false;
                  i_promise := length (promises w); i_accepted := true |}
               result now json code); try done.
    - by apply cache_study_fresh.
    - cbn. by apply list_lookup_middle. }
  repeat split.
  - unfold Routes.wadouri. cbn -[path_join]. fold pathname. rewrite Hmissing.
    unfold Retrieve.waitOrFetchData. by rewrite Hfree.
  - unfold started, Retrieve.fetchData. cbn [snd].
    rewrite retrieves_for_app. cbn [i_series]. case_decide; [lia | done].
  - apply (fetchData_outcome cfg w studyUid seriesUid false false).
  - unfold Routes.wadouri_resume. fold after. rewrite Hout.
    unfold Routes.wadouri_serve. cbn [fst snd]. by rewrite Hread.
  - rewrite sweep_entry, Hentry. unfold Cache.evicts. cbn [fst snd].
    by rewrite String.eqb_refl, andb_false_r.
Qed.

(** X26. A request for image bytes without a study or without an object
    identifier ends in a [TypeError] before the file system is consulted:
    the engine is not called and nothing is sent or swept. *)
Theorem wadouri_missing_identifier fileExists w studyUID seriesUID objectUID
    scu_throws :
  studyUID = None ∨ objectUID = None →
  wadouri cfg fileExists w studyUID seriesUID objectUID scu_throws
  = Threw TypeError.
Proof.
  unfold Routes.wadouri, Routes.wadouri_path.
  intros [-> | ->]; [done |]. by destruct studyUID.
Qed.

End RoutesFurther.

(** ** Stamping *)

Section StampingFurther.
Import Metadata.

Lemma set_field_keys k v fields :
  (set_field k v fields).*1
  = if decide (k ∈ fields.*1) then fields.*1 else fields.*1 ++ [k].
Proof.
  induction fields as [|[k' v'] fields IH]; cbn.
  - rewrite decide_False; [done | apply not_elem_of_nil].
  - destruct (String.eqb_spec k k') as [<- | Hne]; cbn.
    + rewrite decide_True; [done | apply list_elem_of_here].
    + rewrite IH. destruct (decide (k ∈ fields.*1)) as [Hin | Hout].
      * rewrite decide_True; [done | by apply list_elem_of_further].
      * rewrite decide_False; [done |].
        intros Hin. apply elem_of_cons in Hin as [? | ?]; done.
Qed.

Lemma set_field_NoDup k v fields :
  NoDup fields.*1 → NoDup (set_field k v fields).*1.
Proof.
  intros Hnd. rewrite set_field_keys. case_decide; [done |].
  apply NoDup_app. split; [done |]. split; [| apply NoDup_singleton].
  intros x Hx Hk. apply list_elem_of_singleton in Hk. by subst.
Qed.

(** X27. Stamping a record sets the six geometry fields to the values of
    the file, replacing values the record already had, leaves every other
    field of the record as it was, and never duplicates a key. *)
Theorem stamping_touches_geometry_only d fields :
  let stamped := stamp_fields d fields in
  (assoc "00280100" stamped = Some (element (JNum <$> bitsAllocated d) "US") ∧
   assoc "00280101" stamped = Some (element (JNum <$> bitsStored d) "US") ∧
   assoc "00280102" stamped = Some (element (JNum <$> highBit d) "US") ∧
   assoc "00280010" stamped = Some (element (JNum <$> rows d) "US") ∧
   assoc "00280011" stamped = Some (element (JNum <$> cols d) "US") ∧
   assoc "00280030" stamped = Some (element (JStr <$> pixelSpacing d) "DS")) ∧
  (∀ k, k ∉ ["00280100"; "00280101"; "00280102"; "00280010"; "00280011";
             "00280030"] →
        assoc k stamped = assoc k fields) ∧
  (NoDup fields.*1 → NoDup stamped.*1).
Proof.
  intros stamped. split; [apply stamp_fields_geometry |]. split.
  - intros k Hk. unfold stamped, stamp_fields.
    repeat (rewrite assoc_set_field_ne;
            [| intros ->; apply Hk; repeat constructor]).
    done.
  - intros Hnd. unfold stamped, stamp_fields. by repeat apply set_field_NoDup.
Qed.

End StampingFurther.

(** ** The cache write under interleaving *)

Section CacheWriteFurther.
Import CacheWrite.

Variable cfg : config.

Abbreviation then_item := (then_item cfg).
Abbreviation step := (step cfg).
Abbreviation run := (run cfg).

(** A read followed at once by its continuation is the cache write of
    [Retrieve.run_callback]. *)
Lemma read_then_continue now studyUid store :
  cw_store (run {| cw_store := store; cw_waiting := [] |}
              [Read studyUid; Continue 0 now])
  = Retrieve.cache_study cfg now studyUid store.
Proof. reflexivity. Qed.

Lemma then_item_other now studyUid item store k :
  k ≠ studyUid → then_item now studyUid item store !! k = store !! k.
Proof.
  intros Hne. unfold CacheWrite.then_item. destruct item; [done |].
  destruct (0 <=? keepCacheInMinutes cfg); [| done].
  by rewrite lookup_insert_ne.
Qed.

Lemma then_item_keeps_keys now studyUid item store k :
  is_Some (store !! k) → is_Some (then_item now studyUid item store !! k).
Proof.
  intros Hk. unfold CacheWrite.then_item. destruct item; [done |].
  destruct (0 <=? keepCacheInMinutes cfg); [| done].
  destruct (decide (studyUid = k)) as [-> | Hne].
  - rewrite lookup_insert_eq. by eexists.
  - by rewrite lookup_insert_ne.
Qed.

(** No interleaving removes an entry. *)
Lemma cache_write_keeps_keys (s : state) events k :
  is_Some (cw_store s !! k) → is_Some (cw_store (run s events) !! k).
Proof.
  revert s. induction events as [| e events IH]; intros s Hk; [done |].
  apply IH. destruct e as [studyUid | i now]; cbn; [done |].
  destruct (cw_waiting s !! i); [| done]. by apply then_item_keeps_keys.
Qed.

Lemma step_keeps_entry (s : state) e studyUid v :
  cw_store s !! studyUid = Some v → no_stale_read studyUid s →
  cw_store (step s e) !! studyUid = Some v ∧ no_stale_read studyUid (step s e).
Proof.
  intros Hv Hfresh. destruct e as [study | i now]; cbn.
  - split; [done |]. intros waiter Hin Hstudy.
    apply elem_of_app in Hin as [Hin | Hin]; [by apply Hfresh |].
    apply list_elem_of_singleton in Hin. subst waiter. cbn in Hstudy |- *.
    subst study. by rewrite Hv.
  - destruct (cw_waiting s !! i) as [waiter |] eqn:Hi; [| done]. cbn. split.
    + destruct (decide (w_study waiter = studyUid)) as [Heq | Hne].
      * assert (Hread : w_item waiter ≠ None).
        { apply Hfresh; [by apply list_elem_of_lookup_2 in Hi | done]. }
        unfold CacheWrite.then_item. by destruct (w_item waiter).
      * by rewrite then_item_other.
    + intros waiter' Hin. apply Hfresh.
      apply (elem_of_sublist _ _ _ Hin), sublist_delete.
Qed.

(** X9. Once a study has an entry and no continuation of that study is
    waiting with a read made before the entry existed, no interleaving of
    later reads and continuations changes the entry: later completions do
    not refresh its expiry. *)
Theorem cache_entry_kept_without_stale_read (s : state) studyUid v events :
  cw_store s !! studyUid = Some v →
  no_stale_read studyUid s →
  cw_store (run s events) !! studyUid = Some v.
Proof.
  revert s. induction events as [| e events IH]; intros s Hv Hfresh; [done |].
  destruct (step_keeps_entry s e studyUid v Hv Hfresh) as [Hv' Hfresh'].
  by apply IH.
Qed.

End CacheWriteFurther.

(** Without that condition the expiry is refreshed: two completions of
    study [1.2] both read the empty store, the first continuation writes at
    clock [1000] and the second writes again at clock [2000]. *)
Example stale_read_refreshes_expiry :
  let first := CacheWrite.run Sample.cfg Scenario.empty_state
                 [CacheWrite.Read "1.2"; CacheWrite.Read "1.2";
                  CacheWrite.Continue 0 1000] in
  CacheWrite.cw_store first !! "1.2" = Some 3601000 ∧
  CacheWrite.cw_store (CacheWrite.run Sample.cfg first [CacheWrite.Continue 0 2000])
    !! "1.2" = Some 3602000.
Proof. split; reflexivity. Qed.

(** ** The further properties on sample data *)

Section FurtherWitnesses.
Import Find Retrieve Cache Routes.

Lemma doFind_request_terms_witness :
  ∃ offset,
    doFind Sample.cfg Sample.standardDataElements "STUDY"
      [("PatientName", "abc"); ("limit", "5")] ["00080020"]
    = Invoked
        {| f_tags := [ {| key := "00080052"; value := "STUDY" |};
                       {| key := "00080020"; value := EmptyString |};
                       {| key := "00100010"; value := "abc*" |} ];
           f_source := source Sample.cfg;
           f_target := target Sample.cfg |}
        offset.
Proof.
  apply (doFind_request_terms Sample.cfg Sample.standardDataElements "STUDY"
           [("PatientName", "abc"); ("limit", "5")] ["00080020"]).
  reflexivity.
Defined.

Lemma doFind_offset_skips_witness :
  find_promise Sample.JSON_parse (Some 1) [Sample.found_text]
  = Fulfilled (JArr [JNum 20; JNum 30]).
Proof.
  apply (doFind_offset_skips Sample.cfg Sample.standardDataElements
           Sample.JSON_parse "IMAGE" [("offset", "1")] [] "1" 1
           {| f_tags := [{| key := "00080052"; value := "IMAGE" |}];
              f_source := source Sample.cfg;
              f_target := target Sample.cfg |}
           (Some 1) Sample.found_text Sample.found_json
           (Some (JStr "[10,20,30]")) [JNum 10; JNum 20; JNum 30]);
    solve [reflexivity | lia].
Defined.

Lemma doFind_offset_absent_or_invalid_witness :
  find_promise Sample.JSON_parse None [Sample.found_text]
  = Fulfilled (JArr [JNum 10; JNum 20; JNum 30]).
Proof.
  apply (doFind_offset_absent_or_invalid Sample.cfg Sample.standardDataElements
           Sample.JSON_parse "IMAGE" [("offset", "next")] []
           {| f_tags := [{| key := "00080052"; value := "IMAGE" |}];
              f_source := source Sample.cfg;
              f_target := target Sample.cfg |}
           None Sample.found_text Sample.found_json
           (Some (JStr "[10,20,30]")) [JNum 10; JNum 20; JNum 30]);
    try reflexivity.
  right. right. exists "next". split; reflexivity.
Defined.

Lemma doFind_unusable_container_witness :
  find_promise Scenario.JSON_parse (Some 0) [Scenario.object_text]
  = Fulfilled (JArr []).
Proof.
  apply (doFind_unusable_container Scenario.JSON_parse (Some 0)
           Scenario.object_text Scenario.object_json (Some (JStr "{}")));
    solve [reflexivity | exact I].
Defined.

Lemma negative_retention_never_caches_witness :
  storage (run Scenario.no_cache Sample.JSON_parse init
             [Request "1.2" "1.2.3" false false;
              Callback 0 Sample.success_text 1000])
  = storage init.
Proof.
  apply (negative_retention_never_caches Scenario.no_cache Sample.JSON_parse init
           [Request "1.2" "1.2.3" false false;
            Callback 0 Sample.success_text 1000]).
  reflexivity.
Defined.

Lemma cache_entries_come_from_callbacks_witness :
  storage init !! "1.2" = Some 3601000 ∨
  (0 ≤ keepCacheInMinutes Sample.cfg ∧
   ∃ j result now,
     Callback j result now ∈ [Request "1.2" "1.2.3" false false;
                              Callback 0 Sample.success_text 1000] ∧
     3601000 = now + keepCacheInMinutes Sample.cfg * 60000).
Proof.
  apply (cache_entries_come_from_callbacks Sample.cfg Sample.JSON_parse init
           [Request "1.2" "1.2.3" false false;
            Callback 0 Sample.success_text 1000] "1.2" 3601000).
  reflexivity.
Defined.

Lemma resolution_policy_witness :
  examine Sample.cfg Sample.JSON_parse "1.2" false Sample.success_text
  = Normal (ResolveDone Sample.success_json).
Proof.
  apply (proj2 (proj1 (resolution_policy Sample.cfg Sample.JSON_parse "1.2" false
                         Sample.success_text Sample.success_json))).
  split; [reflexivity | left; reflexivity].
Defined.

Lemma faulty_message_rejects_witness :
  outcome (callback Sample.cfg Sample.JSON_parse Scenario.image_wait 0 "<html>" 1000) 1
  = Rejected SyntaxError.
Proof.
  apply (proj1 (faulty_message_rejects Sample.cfg Sample.JSON_parse init
                  "1.2" "1.2.3" false "<html>" 1000)).
  reflexivity.
Defined.

Lemma other_status_only_logged_witness :
  let after := callback Sample.cfg Sample.JSON_parse Scenario.image_wait 0
                 Sample.stored_text 1000 in
  promises after = promises Scenario.image_wait ∧
  storage after = storage Scenario.image_wait ∧
  lock after = delete "1.2.3" (lock Scenario.image_wait).
Proof.
  apply (other_status_only_logged Sample.cfg Sample.JSON_parse Scenario.image_wait
           0 Scenario.image_call Sample.stored_text 1000 Sample.stored_json
           (Some (JNum 1)));
    reflexivity.
Defined.

Lemma unusable_identifier_rejects_witness :
  outcome (callback Sample.cfg Scenario.JSON_parse Sample.started 0
             Scenario.numeric_text 1000) 1
  = Rejected TypeError.
Proof.
  apply (unusable_identifier_rejects Sample.cfg Scenario.JSON_parse init
           "1.2" "1.2.3" Scenario.numeric_text Scenario.numeric_json
           (Some (JObj [("SOPInstanceUID", JNum 7)])) (Some (JNum 7)) 1000);
    solve [reflexivity | discriminate].
Defined.

Lemma joined_handle_is_unsettled_witness :
  outcome Scenario.image_wait 0 = Pending ∨
  outcome Scenario.image_wait 0 = Rejected LibraryError.
Proof.
  apply (joined_handle_is_unsettled Sample.cfg Sample.JSON_parse
           [Request "1.2" "1.2.3" false false] "1.2.3" 0%nat).
  reflexivity.
Defined.

Lemma clearCache_keeps_unexpired_witness :
  let after := clearCache Sample.rmdir_fails "data" "5.5" 100 Scenario.mixed_store in
  store after !! "3.4" = Some 100 ∧
  ∀ d, d ∈ rmdir_calls after →
       ∃ k' v', k' ≠ "3.4" ∧ Scenario.mixed_store !! k' = Some v' ∧ v' < 100 ∧
                k' ≠ "5.5" ∧ d = directory_of "data" k'.
Proof.
  apply (clearCache_keeps_unexpired Sample.rmdir_fails "data" "5.5" 100
           Scenario.mixed_store "3.4" 100); [reflexivity | lia].
Defined.

Lemma clearCache_leaves_fresh_or_protected_witness :
  Scenario.mixed_store !! "3.4" = Some 100 ∧ (100 ≤ 100 ∨ "3.4" = "5.5").
Proof.
  apply (clearCache_leaves_fresh_or_protected Scenario.never_fails "data" "5.5"
           100 Scenario.mixed_store "3.4" 100); reflexivity.
Defined.

Lemma cached_study_lives_until_expiry_witness :
  store (clearCache Sample.rmdir_fails "data" "5.5" 3601000
           (storage Scenario.image_done)) !! "1.2" = Some 3601000 ∧
  store (clearCache Sample.rmdir_fails "data" "5.5" 3601001
           (storage Scenario.image_done)) !! "1.2" = None.
Proof.
  split.
  - apply (proj1 (cached_study_lives_until_expiry Sample.cfg Sample.JSON_parse
                    Scenario.image_wait 0 Scenario.image_call Sample.success_text
                    1000 Sample.success_json 0 Sample.rmdir_fails "5.5" 3601000
                    eq_refl eq_refl eq_refl eq_refl (or_introl eq_refl) eq_refl
                    ltac:(cbn; lia))).
    cbn. lia.
  - apply (proj2 (cached_study_lives_until_expiry Sample.cfg Sample.JSON_parse
                    Scenario.image_wait 0 Scenario.image_call Sample.success_text
                    1000 Sample.success_json 0 Sample.rmdir_fails "5.5" 3601001
                    eq_refl eq_refl eq_refl eq_refl (or_introl eq_refl) eq_refl
                    ltac:(cbn; lia)));
      [cbn; lia | discriminate | reflexivity].
Defined.

Lemma series_route_filters_on_path_study_witness :
  match series Sample.cfg Sample.standardDataElements "1.2" Scenario.foreign_query with
  | Invoked request _ =>
      {| key := "0020000D"; value := "1.2" |} ∈ f_tags request ∧
      ({| key := "0020000D"; value := "9.9" |} ∈ f_tags request →
       "9.9" = EmptyString ∨ "9.9" = "1.2")
  | Returned _ => False
  end.
Proof.
  destruct (series Sample.cfg Sample.standardDataElements "1.2" Scenario.foreign_query)
    as [records | request offset] eqn:Hseries;
    [vm_compute in Hseries; discriminate Hseries |].
  assert (Honly : ∀ n, findDicomName Sample.standardDataElements n = Some "0020000D" →
                       n = "StudyInstanceUID").
  { intros n. unfold findDicomName, Sample.standardDataElements.
    cbn [find_name].
    destruct (String.eqb_spec "PatientName" n); [intros H; discriminate H |].
    destruct (String.eqb_spec "StudyInstanceUID" n); [done |].
    destruct (String.eqb_spec "SeriesInstanceUID" n); intros H; discriminate H. }
  assert (Hnd : NoDup Scenario.foreign_query.*1).
  { cbn. apply NoDup_cons. split; [| apply NoDup_singleton].
    intros H. apply list_elem_of_singleton in H. discriminate H. }
  destruct (series_route_filters_on_path_study Sample.cfg
              Sample.standardDataElements "1.2" Scenario.foreign_query request
              offset {| key := "0020000D"; value := "9.9" |}
              eq_refl Honly Hnd Hseries) as [Hin Honly_path].
  split; [exact Hin |]. intros H. by apply Honly_path.
Defined.

Lemma wadouri_fetches_then_serves_witness :
  ∃ handle w1 store,
    wadouri Sample.cfg Scenario.fileExists init (Some "1.2") "1.2.3"
      (Some "1.2.3.4") false
    = Awaiting "data/1.2/1.2.3.4.dcm" handle w1 ∧
    retrieves_for "1.2.3" w1 = 1%nat ∧
    outcome w1 handle = Pending ∧
    wadouri_resume Sample.cfg Sample.readFile Sample.rmdir_fails 999999999
      "data/1.2/1.2.3.4.dcm" "1.2" handle
      (callback Sample.cfg Sample.JSON_parse w1 0 Sample.success_text 1000)
    = (ImageSent Sample.image, store) ∧
    store !! "1.2" = Some 3601000.
Proof.
  apply (wadouri_fetches_then_serves Sample.cfg Sample.JSON_parse
           Scenario.fileExists Sample.readFile Sample.rmdir_fails init
           "1.2" "1.2.3" "1.2.3.4" Sample.success_text 1000 999999999
           Sample.success_json 0 Sample.image);
    solve [reflexivity | cbn; lia | left; reflexivity].
Defined.

Lemma wadouri_missing_identifier_witness :
  wadouri Sample.cfg Scenario.fileExists init None "1.2.3" (Some "1.2.3.4") false
  = Threw TypeError.
Proof.
  apply (wadouri_missing_identifier Sample.cfg Scenario.fileExists init None
           "1.2.3" (Some "1.2.3.4") false).
  left. reflexivity.
Defined.

Lemma stamping_touches_geometry_only_witness :
  assoc "00080018"
    (Metadata.stamp_fields Scenario.geometry
       [("00080018", JStr "1.2.3.4"); ("00280010", JNum 1)])
  = Some (JStr "1.2.3.4").
Proof.
  apply (proj1 (proj2 (stamping_touches_geometry_only Scenario.geometry
                         [("00080018", JStr "1.2.3.4"); ("00280010", JNum 1)]))
           "00080018").
  intros H. repeat (apply elem_of_cons in H as [H | H]; [discriminate H |]).
  by apply elem_of_nil in H.
Defined.

Lemma metadata_route_filters_on_path_witness :
  match instances Sample.cfg Sample.standardDataElements "1.2" "1.2.3"
          Scenario.foreign_query with
  | Invoked request _ =>
      {| key := "0020000D"; value := "1.2" |} ∈ f_tags request ∧
      {| key := "0020000E"; value := "1.2.3" |} ∈ f_tags request
  | Returned _ => False
  end.
Proof.
  destruct (instances Sample.cfg Sample.standardDataElements "1.2" "1.2.3"
              Scenario.foreign_query)
    as [records | request offset] eqn:Hinstances;
    [vm_compute in Hinstances; discriminate Hinstances |].
  assert (Hstudy : ∀ n, findDicomName Sample.standardDataElements n
                        = Some "0020000D" → n = "StudyInstanceUID").
  { intros n. unfold findDicomName, Sample.standardDataElements.
    cbn [find_name].
    destruct (String.eqb_spec "PatientName" n); [intros H; discriminate H |].
    destruct (String.eqb_spec "StudyInstanceUID" n); [done |].
    destruct (String.eqb_spec "SeriesInstanceUID" n); intros H; discriminate H. }
  assert (Hseries : ∀ n, findDicomName Sample.standardDataElements n
                         = Some "0020000E" → n = "SeriesInstanceUID").
  { intros n. unfold findDicomName, Sample.standardDataElements.
    cbn [find_name].
    destruct (String.eqb_spec "PatientName" n); [intros H; discriminate H |].
    destruct (String.eqb_spec "StudyInstanceUID" n); [intros H; discriminate H |].
    destruct (String.eqb_spec "SeriesInstanceUID" n); [done |].
    intros H; discriminate H. }
  assert (Hnd : NoDup Scenario.foreign_query.*1).
  { cbn. apply NoDup_cons. split; [| apply NoDup_singleton].
    intros H. apply list_elem_of_singleton in H. discriminate H. }
  destruct (metadata_route_filters_on_path Sample.cfg Sample.standardDataElements
              "1.2" "1.2.3" Scenario.foreign_query request offset
              {| key := "0020000D"; value := "9.9" |}
              eq_refl eq_refl Hstudy Hseries Hnd Hinstances) as (H1 & H2 & _).
  by split.
Defined.

Lemma clearCache_rmdir_calls_witness :
  "data/1.2" ∈ rmdir_calls (clearCache Sample.rmdir_fails "data" "5.5" 100
                               Scenario.mixed_store).
Proof.
  destruct (clearCache_rmdir_calls Sample.rmdir_fails "data" "5.5" 100
              Scenario.mixed_store) as (items & _ & Hitems & ->).
  apply list_elem_of_fmap. exists ("1.2", 10). split; [reflexivity |].
  apply Hitems. split; [reflexivity |]. split; [lia | discriminate].
Defined.

Lemma cache_entry_kept_without_stale_read_witness :
  CacheWrite.cw_store
    (CacheWrite.run Sample.cfg Scenario.cached_state
       [CacheWrite.Read "1.2"; CacheWrite.Read "3.4";
        CacheWrite.Continue 1 1000; CacheWrite.Read "1.2";
        CacheWrite.Continue 0 2000; CacheWrite.Continue 0 3000])
    !! "1.2" = Some 5.
Proof.
  apply (cache_entry_kept_without_stale_read Sample.cfg Scenario.cached_state
           "1.2" 5); [reflexivity |].
  intros waiter Hin. cbn in Hin. by apply elem_of_nil in Hin.
Defined.

End FurtherWitnesses.
